(** * A private blockchain with a star registry: [src/blockchain.js]

    The [Blockchain] class keeps an array of block objects and a cached
    height.  The development below embeds the class as state-passing
    programs over an explicit store of block objects, because the class
    pushes the very object it is handed and later hands out references to
    the objects it stores.

    Conventions.
    - A JavaScript string is a [string] whose characters are code units
      below 256.
    - A JavaScript number is a [Z]; [None] stands for [NaN].  The numbers the
      class computes with are integers.  A parsed number that passes the
      date-range test of [moment] is below 2^53 in magnitude and therefore
      exact; a difference of two time values divided by 1000 is below 2^43,
      where doubles are less than 0.0005 apart from the exact quotient, so
      that truncation yields the integer quotient.
    - A promise is run to completion: an operation maps a ledger to its
      settlement (resolved value or rejection reason) and the ledger after.
      The constructor starts [initializeChain] without awaiting it; the
      ledger after that call has settled is [Blockchain_new].  A call that
      is made while another is pending is split at its [await]:
      [_addBlock_resume] is the part of [_addBlock] that runs afterwards.
    - [block.js] is not among the sources.  The hash function, the payload
      codec and the signature verifier are fields of [Services]; what the
      [Block] methods do with them follows the specification. *)

From Stdlib Require Import ZArith String Ascii List Lia Bool DecimalString.
From Stdlib Require DecimalPos.
From stdpp Require Import base option list.
Import ListNotations.
Local Open Scope Z_scope.

(** ** JavaScript values and strings *)

#[local] Unset Elimination Schemes.
Inductive jsval :=
| JUndefined
| JNull
| JBool (b : bool)
| JNum (n : Z)
| JStr (s : string)
| JArr (items : list jsval)
| JObj (fields : list (string * jsval)).
#[local] Set Elimination Schemes.

(** What a promise is rejected with: an [Error] object, a [TypeError]
    raised by the runtime, or a bare string passed to [reject]. *)
Inductive jserror :=
| Error (msg : string)
| TypeError (msg : string)
| Reason (msg : string).

Fixpoint assoc (k : string) (fields : list (string * jsval)) : option jsval :=
  match fields with
  | [] => None
  | (k', v) :: rest => if String.eqb k k' then Some v else assoc k rest
  end.

(** [v.k]: reading a property of [null] or [undefined] throws; an object
    yields the field or [undefined]; the other values have no own property of
    the names used here. *)
Definition getProp (v : jsval) (k : string) : jserror + jsval :=
  match v with
  | JUndefined =>
      inl (TypeError ("Cannot read properties of undefined (reading '" ++ k ++ "')"))
  | JNull =>
      inl (TypeError ("Cannot read properties of null (reading '" ++ k ++ "')"))
  | JObj fields => inr (default JUndefined (assoc k fields))
  | _ => inr JUndefined
  end.

(** [v === s] for a string [s]. *)
Definition strictEqStr (v : jsval) (s : string) : bool :=
  match v with
  | JStr s' => String.eqb s' s
  | _ => false
  end.

Definition optStrEq (a b : option string) : bool :=
  match a, b with
  | Some x, Some y => String.eqb x y
  | None, None => true
  | _, _ => false
  end.

(** [s.split(sep)] for a one-character separator. *)
Fixpoint splitOn (sep : ascii) (s : string) : list string :=
  match s with
  | EmptyString => [EmptyString]
  | String c rest =>
      if Ascii.eqb c sep then EmptyString :: splitOn sep rest
      else match splitOn sep rest with
           | [] => [String c EmptyString]
           | w :: ws => String c w :: ws
           end
  end.

Definition codeUnit (c : ascii) : Z := Z.of_N (N_of_ascii c).

Definition isWhiteSpace (c : ascii) : bool :=
  let n := codeUnit c in
  ((9 <=? n) && (n <=? 13)) || (n =? 32) || (n =? 160).

Fixpoint trimStart (s : string) : string :=
  match s with
  | String c rest => if isWhiteSpace c then trimStart rest else s
  | EmptyString => EmptyString
  end.

Definition digitValue (radix : Z) (c : ascii) : option Z :=
  let n := codeUnit c in
  let d := if (48 <=? n) && (n <=? 57) then Some (n - 48)
           else if (97 <=? n) && (n <=? 122) then Some (n - 87)
           else if (65 <=? n) && (n <=? 90) then Some (n - 55)
           else None in
  match d with
  | Some v => if v <? radix then Some v else None
  | None => None
  end.

(** The longest prefix of digits, most significant first; [acc] is [None]
    until a digit has been read. *)
Fixpoint parseDigits (radix : Z) (s : string) (acc : option Z) : option Z :=
  match s with
  | String c rest =>
      match digitValue radix c with
      | Some d => parseDigits radix rest (Some (radix * default 0 acc + d))
      | None => acc
      end
  | EmptyString => acc
  end.

Definition stripSign (s : string) : Z * string :=
  match s with
  | String "-"%char rest => (-1, rest)
  | String "+"%char rest => (1, rest)
  | _ => (1, s)
  end.

Definition stripRadix (s : string) : Z * string :=
  match s with
  | String "0"%char (String "x"%char rest) => (16, rest)
  | String "0"%char (String "X"%char rest) => (16, rest)
  | _ => (10, s)
  end.

(** [parseInt(s)] without a radix argument. *)
Definition parseInt (s : string) : option Z :=
  let '(sign, s1) := stripSign (trimStart s) in
  let '(radix, s2) := stripRadix s1 in
  match parseDigits radix s2 None with
  | Some n => Some (sign * n)
  | None => None
  end.

(** [String(n)] for an integer. *)
Definition toString (n : Z) : string := NilZero.string_of_int (Z.to_int n).

(** ** The slice of [moment] that the class uses *)

(** A date holds a time value of at most 8.64e15 milliseconds either side of
    the epoch; [moment(n)] is invalid outside of it and for [NaN]. *)
Definition MAX_TIME_VALUE : Z := 8640000000000000.

Definition moment (n : option Z) : option Z :=
  match n with
  | Some t => if Z.abs t <=? MAX_TIME_VALUE then Some t else None
  | None => None
  end.

(** [a.diff(b, 'seconds')]: [NaN] when either side is invalid, otherwise the
    difference in milliseconds over 1000, truncated toward zero. *)
Definition diffSeconds (a b : option Z) : option Z :=
  match a, b with
  | Some x, Some y => Some (Z.quot (x - y) 1000)
  | _, _ => None
  end.

(** [x >= n]; a comparison with [NaN] is false. *)
Definition numGe (x : option Z) (n : Z) : bool :=
  match x with
  | Some v => n <=? v
  | None => false
  end.

(** ** Blocks *)

Definition loc := nat.

Module Block.

(** The fields of a block object; [None] is an unset ([null]) field. *)
Record t := mk {
  hash : option string;
  height : option Z;
  body : string;
  time : option string;
  previousBlockHash : option string
}.

Definition blank : t := mk None None EmptyString None None.

Definition setHash (v : option string) (b : t) : t :=
  mk v (height b) (body b) (time b) (previousBlockHash b).
Definition setHeight (v : option Z) (b : t) : t :=
  mk (hash b) v (body b) (time b) (previousBlockHash b).
Definition setTime (v : option string) (b : t) : t :=
  mk (hash b) (height b) (body b) v (previousBlockHash b).
Definition setPreviousBlockHash (v : option string) (b : t) : t :=
  mk (hash b) (height b) (body b) (time b) v.

End Block.

(** ** The ledger *)

(** [heap] is the store of block objects, addressed by [loc]; [chain] is
    [this.chain], an array of references into it; [height] is
    [this.height]. *)
Record Blockchain := mkBlockchain {
  heap : list Block.t;
  chain : list loc;
  height : Z
}.

Definition deref (h : list Block.t) (l : loc) : Block.t :=
  default Block.blank (h !! l).

Definition blockAt (st : Blockchain) (l : loc) : Block.t := deref (heap st) l.

(** The chain as the sequence of the block values it refers to. *)
Definition blocks (st : Blockchain) : list Block.t := map (blockAt st) (chain st).

(** ** Promises run to completion: a state and rejection monad *)

Definition M (A : Type) : Type := Blockchain -> (jserror + A) * Blockchain.

Definition ret {A} (x : A) : M A := fun st => (inr x, st).
Definition throw {A} (e : jserror) : M A := fun st => (inl e, st).
Definition bind {A B} (m : M A) (k : A -> M B) : M B :=
  fun st =>
    match m st with
    | (inr x, st') => k x st'
    | (inl e, st') => (inl e, st')
    end.

Notation "'let!' x ':=' m 'in' k" := (bind m (fun x => k))
  (at level 10, x name, m at level 100, k at level 200).
Notation "'do!' m 'in' k" := (bind m (fun _ => k))
  (at level 10, m at level 100, k at level 200).

Definition getChain : M (list loc) := fun st => (inr (chain st), st).
Definition getHeight : M Z := fun st => (inr (height st), st).
Definition putHeight (h : Z) : M unit :=
  fun st => (inr tt, mkBlockchain (heap st) (chain st) h).
Definition pushChain (l : loc) : M unit :=
  fun st => (inr tt, mkBlockchain (heap st) (chain st ++ [l]) (height st)).
Definition readBlock (l : loc) : M Block.t := fun st => (inr (blockAt st l), st).
Definition writeBlock (l : loc) (f : Block.t -> Block.t) : M unit :=
  fun st =>
    (inr tt, mkBlockchain (<[l := f (blockAt st l)]> (heap st)) (chain st) (height st)).
Definition allocBlock (b : Block.t) : M loc :=
  fun st =>
    (inr (length (heap st)), mkBlockchain (heap st ++ [b]) (chain st) (height st)).

Definition FIVE_MINUTES_IN_SECONDS : Z := 300.

Definition ChainInvalidError : jserror := Error "Blockchain is not valid".
Definition ExpiredChallengeError : jserror :=
  Reason "Time elapsed between the message was sent and the current time must be less than 5 minutes".
Definition InvalidSignatureError : jserror := Reason "Message is not valid".
Definition undefinedHash : jserror :=
  TypeError "Cannot read properties of undefined (reading 'hash')".

Definition genesisData : jsval := JObj [("data"%string, JStr "Genesis Block")].
Definition starData (address : string) (star : jsval) : jsval :=
  JObj [("owner"%string, JStr address); ("star"%string, star)].

(** The services the class consumes: the content hash behind
    [block.generateNewHash], the payload codec behind the [Block] constructor
    and [block.getBData], and [bitcoinMessage.verify], which returns a boolean
    or throws. *)
Record Services := mkServices {
  digest : option Z -> option string -> option string -> string -> string;
  encode : jsval -> string;
  decode : string -> option jsval;
  verify : string -> string -> string -> jserror + bool
}.

Definition tryCatch {A} (m : M A) (handler : jserror -> M A) : M A :=
  fun st =>
    match m st with
    | (inl e, st') => handler e st'
    | r => r
    end.

Definition heightIs (b : Block.t) (n : Z) : bool :=
  match Block.height b with
  | Some h => h =? n
  | None => false
  end.

Definition newBlockchain : Blockchain := mkBlockchain [] [] (-1).

Section Ledger.

Context (sv : Services).

(** *** The methods of [block.js] that the class calls *)

(** Modelled from the spec: [block.js] is not part of the sources.  The
    constructor leaves height, time, previous hash and hash unset and
    stores the encoded payload in [body]. *)
Definition Block_new (data : jsval) : M loc :=
  allocBlock (Block.mk None None (encode sv data) None None).

(** Modelled from the spec: [block.js] is not part of the sources.  The
    hash covers height, time, previous hash and body, never the stored
    hash. *)
Definition hashOf (b : Block.t) : string :=
  digest sv (Block.height b) (Block.time b) (Block.previousBlockHash b) (Block.body b).

(** Modelled from the spec: [block.js] is not part of the sources.
    [generateNewHash] reads the block and returns the hash of its current
    fields; it writes nothing. *)
Definition generateNewHash (block : loc) : M string :=
  let! b := readBlock block in ret (hashOf b).

(** Modelled from the spec: [block.js] is not part of the sources.
    [validate] recomputes the hash and compares it with the stored one,
    without writing to the block. *)
Definition selfConsistent (b : Block.t) : bool :=
  optStrEq (Block.hash b) (Some (hashOf b)).

Definition validate (block : loc) : M bool :=
  let! b := readBlock block in ret (selfConsistent b).

(** Modelled from the spec: [block.js] is not part of the sources.
    [getBData] decodes the body and throws when it is not validly
    encoded. *)
Definition getBData (block : loc) : M jsval :=
  let! b := readBlock block in
  match decode sv (Block.body b) with
  | Some v => ret v
  | None => throw (Error "Block body cannot be decoded")
  end.

(** *** [blockchain.js] *)

Definition getChainHeight : M Z := getHeight.

Definition _generateNewTime (now : Z) : string := toString now.

(** The body of the [for ... of] loop of [validateChain], over the blocks
    still to visit. *)
Fixpoint validateChain_loop (todo : list loc) (errorLog : list loc) : M (list loc) :=
  match todo with
  | [] => ret errorLog
  | block :: rest =>
      let! isValid := validate block in
      let errorLog1 := if isValid then errorLog else errorLog ++ [block] in
      let! b := readBlock block in
      match Block.height b with
      | Some h =>
          if 0 <? h then
            let! c := getChain in
            match c !! Z.to_nat (h - 1) with
            | None => throw undefinedHash
            | Some prev =>
                let! p := readBlock prev in
                let isPreviousHashValid :=
                  optStrEq (Block.previousBlockHash b) (Block.hash p) in
                let errorLog2 :=
                  if isPreviousHashValid then errorLog1 else errorLog1 ++ [block] in
                validateChain_loop rest errorLog2
            end
          else validateChain_loop rest errorLog1
      | None => validateChain_loop rest errorLog1
      end
  end.

Definition validateChain : M (list loc) :=
  let! c := getChain in validateChain_loop c [].

Definition _addBlock (now : Z) (block : loc) : M loc :=
  let! errorLogs := validateChain in
  if (0 <? Z.of_nat (length errorLogs)) then throw ChainInvalidError
  else
    let! h := getHeight in
    let blockHeight := h + 1 in
    do! writeBlock block (Block.setHeight (Some blockHeight)) in
    do! (if 0 <? blockHeight then
           let! c := getChain in
           match c !! (length c - 1)%nat with
           | None => throw undefinedHash
           | Some lastBlock =>
               let! p := readBlock lastBlock in
               writeBlock block (Block.setPreviousBlockHash (Block.hash p))
           end
         else ret tt) in
    do! writeBlock block (Block.setTime (Some (_generateNewTime now))) in
    let! newHash := generateNewHash block in
    do! writeBlock block (Block.setHash (Some newHash)) in
    do! pushChain block in
    do! putHeight blockHeight in
    ret block.

Definition initializeChain (now : Z) : M unit :=
  let! h := getHeight in
  if h =? -1 then
    let! block := Block_new genesisData in
    do! _addBlock now block in
    ret tt
  else ret tt.

Definition requestMessageOwnershipVerification (now : Z) (address : string) : M string :=
  ret (address ++ ":" ++ _generateNewTime now ++ ":starRegistry")%string.

(** The part of [submitStar] after the freshness test: the signature
    check, then construction and append of the block. *)
Definition verifyAndAppend (commitTime : Z)
    (address message signature : string) (star : jsval) : M loc :=
  match verify sv message address signature with
  | inl e => throw e
  | inr isMessageValid =>
      if negb isMessageValid then throw InvalidSignatureError
      else
        let! block := Block_new (starData address star) in
        let! blockAdded := _addBlock commitTime block in
        ret blockAdded
  end.

(** The second colon-delimited field, parsed; a missing field is
    [undefined], which [parseInt] reads as the text "undefined". *)
Definition messageTime (message : string) : option Z :=
  parseInt (default "undefined"%string (splitOn ":"%char message !! 1%nat)).

(** The moment built from the parsed number: the timestamp the message
    carries, or an invalid moment. *)
Definition mMessageTime (message : string) : option Z :=
  moment (messageTime message).

(** [moment()] at clock reading [now] is always a valid moment. *)
Definition elapsedTimeInSeconds (now : Z) (message : string) : option Z :=
  diffSeconds (Some now) (mMessageTime message).

(** [now] is the clock read by [moment()], [commitTime] the later reading
    taken by [_addBlock]. *)
Definition submitStar (now commitTime : Z)
    (address message signature : string) (star : jsval) : M loc :=
  if numGe (elapsedTimeInSeconds now message) FIVE_MINUTES_IN_SECONDS then
    throw ExpiredChallengeError
  else verifyAndAppend commitTime address message signature star.

(** [this.chain.find(pred)] with a predicate that reads the block. *)
Fixpoint chainFind (pred : Block.t -> bool) (todo : list loc) : M (option loc) :=
  match todo with
  | [] => ret None
  | l :: rest =>
      let! b := readBlock l in
      if pred b then ret (Some l) else chainFind pred rest
  end.

Definition getBlockByHash (hash : string) : M (option loc) :=
  let! c := getChain in
  chainFind (fun block => optStrEq (Block.hash block) (Some hash)) c.

Definition getBlockByHeight (height : Z) : M (option loc) :=
  let! c := getChain in
  chainFind (fun p => heightIs p height) c.

(** The callback of [forEach] in [getStarsByWalletAddress], over the blocks
    still to visit; only the call of [getBData] sits inside the [try]. *)
Fixpoint getStars_loop (address : string) (todo : list loc) (stars : list jsval)
    : M (list jsval) :=
  match todo with
  | [] => ret stars
  | block :: rest =>
      let! b := readBlock block in
      if heightIs b 0 then getStars_loop address rest stars
      else
        let! decoded :=
          tryCatch (let! v := getBData block in ret (Some v)) (fun _ => ret None) in
        match decoded with
        | None => getStars_loop address rest stars
        | Some body =>
            match getProp body "owner" with
            | inl e => throw e
            | inr owner =>
                if strictEqStr owner address
                then getStars_loop address rest (stars ++ [body])
                else getStars_loop address rest stars
            end
        end
  end.

Definition getStarsByWalletAddress (address : string) : M (list jsval) :=
  let! c := getChain in getStars_loop address c [].

Definition tamperWithBlockByHeight (height : Z) : M (option loc) :=
  let! found := getBlockByHeight height in
  match found with
  | None => ret None
  | Some block =>
      do! writeBlock block (Block.setHash (Some ("123" ++ toString height)%string)) in
      ret (Some block)
  end.

End Ledger.

(** ** Descriptions of the results, used to state the properties *)

Section Descriptions.

Context (sv : Services).

(** What one turn of the loop of [validateChain] adds to the error log for
    the block at [l], or the error it throws when the block's height names
    a position past the end of the chain. *)
Definition blockReport (st : Blockchain) (l : loc) : jserror + list loc :=
  let b := blockAt st l in
  let self := if selfConsistent sv b then [] else [l] in
  match Block.height b with
  | Some h =>
      if 0 <? h then
        match chain st !! Z.to_nat (h - 1) with
        | None => inl undefinedHash
        | Some prev =>
            inr (self ++
                 if optStrEq (Block.previousBlockHash b) (Block.hash (blockAt st prev))
                 then [] else [l])
        end
      else inr self
  | None => inr self
  end.

Fixpoint reports (st : Blockchain) (todo : list loc) (errorLog : list loc)
    : jserror + list loc :=
  match todo with
  | [] => inr errorLog
  | l :: rest =>
      match blockReport st l with
      | inl e => inl e
      | inr r => reports st rest (errorLog ++ r)
      end
  end.

(** The two checks of [validateChain] on one block. *)
Definition selfBroken (b : Block.t) : bool := negb (selfConsistent sv b).

Definition linkBroken (st : Blockchain) (b : Block.t) : bool :=
  match Block.height b with
  | Some h =>
      (0 <? h) &&
      match chain st !! Z.to_nat (h - 1) with
      | Some prev =>
          negb (optStrEq (Block.previousBlockHash b) (Block.hash (blockAt st prev)))
      | None => false
      end
  | None => false
  end.

(** The entries a block contributes to the error list: its reference, once
    for each failed check. *)
Definition failures (st : Blockchain) (l : loc) : list loc :=
  (if selfBroken (blockAt st l) then [l] else []) ++
  (if linkBroken st (blockAt st l) then [l] else []).

(** A value whose properties can be read without a [TypeError]. *)
Definition canReadProps (v : jsval) : bool :=
  match v with
  | JUndefined | JNull => false
  | _ => true
  end.

Definition ownedBy (address : string) (v : jsval) : bool :=
  match getProp v "owner" with
  | inr owner => strictEqStr owner address
  | inl _ => false
  end.

(** The decoded payload of a non-genesis block, when its body decodes. *)
Definition decodedRecord (b : Block.t) : option jsval :=
  if heightIs b 0 then None else decode sv (Block.body b).

(** The decoded payloads of the non-genesis blocks, in chain order. *)
Definition decodedRecords (st : Blockchain) : list jsval :=
  omap decodedRecord (blocks st).

(** The shape of a challenge as [requestMessageOwnershipVerification]
    issues it: three colon-delimited fields, the second one a run of
    decimal digits. *)
Definition isDigit (c : ascii) : bool :=
  (48 <=? codeUnit c) && (codeUnit c <=? 57).

Definition challengeShape (message : string) : bool :=
  match splitOn ":"%char message with
  | [_; t; _] => negb (String.eqb t "") && forallb isDigit (list_ascii_of_string t)
  | _ => false
  end.

(** A submission with a timestamp less than 300 seconds old and a
    signature that verifies resolves, on the ledger [st]. *)
Definition freshClaimSucceeds (st : Blockchain) : Prop :=
  forall (now commitTime t : Z) (address message signature : string) (star : jsval),
    mMessageTime message = Some t ->
    now - t < FIVE_MINUTES_IN_SECONDS * 1000 ->
    verify sv message address signature = inr true ->
    exists block : loc,
      fst (submitStar sv now commitTime address message signature star st) = inr block.

(** The block object at [block] as a successful [_addBlock] leaves it:
    height, link, time and hash assigned in that order. *)
Definition stamped (st : Blockchain) (now : Z) (block : loc) : Block.t :=
  let b1 := Block.setHeight (Some (height st + 1)) (blockAt st block) in
  let b2 :=
    if 0 <? height st + 1 then
      match chain st !! (length (chain st) - 1)%nat with
      | Some lastBlock => Block.setPreviousBlockHash (Block.hash (blockAt st lastBlock)) b1
      | None => b1
      end
    else b1 in
  let b3 := Block.setTime (Some (_generateNewTime now)) b2 in
  Block.setHash (Some (hashOf sv b3)) b3.

Definition committed (st : Blockchain) (now : Z) (block : loc) : Blockchain :=
  mkBlockchain (<[block := stamped st now block]> (heap st))
               (chain st ++ [block]) (height st + 1).

(** *** Well-formedness of a ledger *)

Definition cacheAgrees (st : Blockchain) : Prop :=
  height st = Z.of_nat (length (chain st)) - 1.

Definition refsLive (st : Blockchain) : Prop :=
  Forall (fun l => (l < length (heap st))%nat) (chain st).

Definition heightsMatch (st : Blockchain) : Prop :=
  forall (i : nat) (b : Block.t),
    blocks st !! i = Some b -> Block.height b = Some (Z.of_nat i).

Definition genesisUnlinked (st : Blockchain) : Prop :=
  forall b : Block.t, blocks st !! 0%nat = Some b -> Block.previousBlockHash b = None.

Definition linked (st : Blockchain) : Prop :=
  forall (i : nat) (b p : Block.t),
    blocks st !! S i = Some b -> blocks st !! i = Some p ->
    Block.previousBlockHash b = Block.hash p.

Definition chainInvariant (st : Blockchain) : Prop :=
  heightsMatch st /\ genesisUnlinked st /\ linked st.

(** *** Reachable ledgers *)

(** Every ledger that calls of the mutating methods can produce from a new
    one; a caller may construct blocks of its own and may hand
    [_addBlock] any block object that exists.  The lookups and
    [validateChain] leave the ledger as it is. *)
Inductive reachable : Blockchain -> Prop :=
| reach_new : reachable newBlockchain
| reach_initializeChain now st :
    reachable st -> reachable (snd (initializeChain sv now st))
| reach_Block_new data st :
    reachable st -> reachable (snd (Block_new sv data st))
| reach_addBlock now block st :
    reachable st -> (block < length (heap st))%nat ->
    reachable (snd (_addBlock sv now block st))
| reach_submitStar now commitTime address message signature star st :
    reachable st ->
    reachable (snd (submitStar sv now commitTime address message signature star st))
| reach_tamper h st :
    reachable st -> reachable (snd (tamperWithBlockByHeight h st)).

(** Ledgers produced by [initializeChain] and successful calls of
    [_addBlock] on arbitrary existing block objects. *)
Inductive appended : Blockchain -> Prop :=
| appended_new : appended newBlockchain
| appended_initializeChain now st :
    appended st -> appended (snd (initializeChain sv now st))
| appended_Block_new data st :
    appended st -> appended (snd (Block_new sv data st))
| appended_addBlock now block st l :
    appended st -> (block < length (heap st))%nat ->
    fst (_addBlock sv now block st) = inr l ->
    appended (snd (_addBlock sv now block st)).

(** Append of a block constructed for the occasion, as [initializeChain]
    and [submitStar] do. *)
Definition appendNew (now : Z) (data : jsval) : M loc :=
  let! block := Block_new sv data in _addBlock sv now block.

(** Ledgers produced by [initializeChain] and successful appends of newly
    constructed blocks. *)
Inductive grown : Blockchain -> Prop :=
| grown_new : grown newBlockchain
| grown_initializeChain now st :
    grown st -> grown (snd (initializeChain sv now st))
| grown_appendNew now data st l :
    grown st ->
    fst (appendNew now data st) = inr l ->
    grown (snd (appendNew now data st)).

End Descriptions.

(** ** A concrete instance of the services, for running the class *)

Module Demo.

Definition showOpt (o : option string) : string := default "null"%string o.

Definition digest (h : option Z) (t p : option string) (b : string) : string :=
  ("#" ++ default "null" (toString <$> h) ++ "|" ++ showOpt t ++ "|" ++ showOpt p
     ++ "|" ++ b)%string.

(** The payloads the sample ledgers store, with the text standing for
    each. *)
Definition codebook : list (string * jsval) :=
  [ ("genesis"%string, genesisData);
    ("alice-vega"%string, starData "alice" (JStr "Vega"));
    ("alice-rigel"%string, starData "alice" (JStr "Rigel"));
    ("bob-deneb"%string, starData "bob" (JStr "Deneb"));
    ("null"%string, JNull) ].

Definition sameStar (a b : jsval) : bool :=
  match a, b with
  | JStr x, JStr y => String.eqb x y
  | _, _ => false
  end.

Definition samePayload (a b : jsval) : bool :=
  match a, b with
  | JNull, JNull => true
  | JObj [(k1, JStr v1)], JObj [(k2, JStr v2)] => String.eqb k1 k2 && String.eqb v1 v2
  | JObj [(k1, JStr v1); (k1', s1)], JObj [(k2, JStr v2); (k2', s2)] =>
      String.eqb k1 k2 && String.eqb v1 v2 && String.eqb k1' k2' && sameStar s1 s2
  | _, _ => false
  end.

Definition encode (data : jsval) : string :=
  match List.find (fun e => samePayload (snd e) data) codebook with
  | Some e => fst e
  | None => "?"%string
  end.

Definition decode (body : string) : option jsval := assoc body codebook.

(** A signature is the text "signed:" followed by the message and the
    address; an empty signature makes the verifier throw. *)
Definition verify (message address signature : string) : jserror + bool :=
  if String.eqb signature "" then inl (Error "Invalid signature length")
  else inr (String.eqb signature ("signed:" ++ message ++ "@" ++ address)).

Definition services : Services := mkServices digest encode decode verify.

Definition run {A} (m : M A) (st : Blockchain) : Blockchain := snd (m st).

Definition sign (message address : string) : string :=
  ("signed:" ++ message ++ "@" ++ address)%string.

(** The challenge issued to [address] at clock reading [issued]. *)
Definition challenge (issued : Z) (address : string) : string :=
  (address ++ ":" ++ toString issued ++ ":starRegistry")%string.

(** A claim submitted and committed at [now] for a challenge issued at
    [issued], signed by the address itself. *)
Definition claim (issued now : Z) (address : string) (star : jsval) : M loc :=
  submitStar services now now address (challenge issued address)
    (sign (challenge issued address) address) star.

(** The ledger once the constructor's [initializeChain] has settled. *)
Definition ready : Blockchain := run (initializeChain services 1000) newBlockchain.

(** Three stars registered by two owners. *)
Definition withStars : Blockchain :=
  run (claim 5000 6000 "alice" (JStr "Rigel"))
    (run (claim 3000 4000 "bob" (JStr "Deneb"))
       (run (claim 2000 3000 "alice" (JStr "Vega")) ready)).

(** The hashes of the blocks at heights 0 and 1 overwritten by the
    tampering hook. *)
Definition tampered : Blockchain :=
  run (tamperWithBlockByHeight 1) (run (tamperWithBlockByHeight 0) withStars).

(** The genesis block object, as [getBlockByHeight(0)] returns it, handed
    to [_addBlock] again. *)
Definition aliased : Blockchain := run (_addBlock services 2000 0%nat) ready.

(** A block whose payload is [null] between two stars of one owner. *)
Definition withNull : Blockchain :=
  run (claim 5000 6000 "alice" (JStr "Rigel"))
    (run (appendNew services 4000 JNull)
       (run (claim 2000 3000 "alice" (JStr "Vega")) ready)).

End Demo.

(** ** Descriptions used by the further properties *)

Fixpoint noColon (s : string) : bool :=
  match s with
  | EmptyString => true
  | String c rest => negb (Ascii.eqb c ":"%char) && noColon rest
  end.

(** The message [requestMessageOwnershipVerification] resolves with. *)
Definition issuedMessage (now : Z) (address : string) : string :=
  (address ++ ":" ++ _generateNewTime now ++ ":starRegistry")%string.

(** The hash the tampering hook writes. *)
Definition tamperedHash (h : Z) : string := ("123" ++ toString h)%string.

Section Soundness.

Context (sv : Services).

(** Every block of the chain stores the hash of its own fields. *)
Definition selfConsistentChain (st : Blockchain) : Prop :=
  Forall (fun b => selfConsistent sv b = true) (blocks st).

Definition sound (st : Blockchain) : Prop :=
  cacheAgrees st /\ refsLive st /\ chainInvariant st /\ selfConsistentChain st.

(** Every block of the chain has a height that names a position of the
    chain. *)
Definition heightsInRange (st : Blockchain) : Prop :=
  Forall (fun l => exists h, Block.height (blockAt st l) = Some h
                             /\ 0 <= h < Z.of_nat (length (chain st)))
         (chain st).

(** The part of [_addBlock] after [await this.validateChain()]: it runs in
    a later turn, with the error list the validation delivered, on the ledger
    as the calls that ran in between have left it. *)
Definition _addBlock_resume (errorLogs : list loc) (now : Z) (block : loc) : M loc :=
  if (0 <? Z.of_nat (length errorLogs)) then throw ChainInvalidError
  else
    let! h := getHeight in
    let blockHeight := h + 1 in
    do! writeBlock block (Block.setHeight (Some blockHeight)) in
    do! (if 0 <? blockHeight then
           let! c := getChain in
           match c !! (length c - 1)%nat with
           | None => throw undefinedHash
           | Some lastBlock =>
               let! p := readBlock lastBlock in
               writeBlock block (Block.setPreviousBlockHash (Block.hash p))
           end
         else ret tt) in
    do! writeBlock block (Block.setTime (Some (_generateNewTime now))) in
    let! newHash := generateNewHash sv block in
    do! writeBlock block (Block.setHash (Some newHash)) in
    do! pushChain block in
    do! putHeight blockHeight in
    ret block.

(** [new Blockchain()] once the [initializeChain] it starts has settled. *)
Definition Blockchain_new (now : Z) : Blockchain :=
  snd (initializeChain sv now newBlockchain).

End Soundness.

(** Two calls of [initializeChain] in flight at once: the one the
    constructor starts and one made before it has settled.  Both find
    height -1 and construct a genesis block before the first [await]; [held]
    is the ledger when the first resumes, [interleaved] the one after both
    have. *)
Definition bothPending : Blockchain :=
  snd (Block_new Demo.services genesisData
         (snd (Block_new Demo.services genesisData newBlockchain))).

Definition held : Blockchain :=
  snd (_addBlock_resume Demo.services [] 1000 0%nat bothPending).

Definition interleaved : Blockchain :=
  snd (_addBlock_resume Demo.services [] 1001 1%nat held).

(** The sample ledger with the hash of the block at height 1 overwritten. *)
Definition tamperedOnce : Blockchain :=
  Demo.run (tamperWithBlockByHeight 1) Demo.withStars.

(** ** How the loops run *)

Section Runs.

Context (sv : Services).

Lemma validateChain_loop_run (todo errorLog : list loc) (st : Blockchain) :
  validateChain_loop sv todo errorLog st = (reports sv st todo errorLog, st).
Proof.
  revert errorLog.
  induction todo as [|l rest IH]; intros errorLog; simpl; [reflexivity|].
  unfold bind, validate, readBlock, getChain, ret, throw, blockReport; simpl.
  destruct (Block.height (blockAt st l)) as [h|]; simpl.
  - destruct (0 <? h); simpl.
    + destruct (chain st !! Z.to_nat (h - 1)) as [prev|]; simpl; [|reflexivity].
      rewrite IH.
      destruct (selfConsistent sv (blockAt st l)), (optStrEq _ _); simpl;
        rewrite ?app_nil_r, <- ?app_assoc; reflexivity.
    + rewrite IH. destruct (selfConsistent sv (blockAt st l));
        rewrite ?app_nil_r; reflexivity.
  - rewrite IH. destruct (selfConsistent sv (blockAt st l));
      rewrite ?app_nil_r; reflexivity.
Qed.

Lemma validateChain_run (st : Blockchain) :
  validateChain sv st = (reports sv st (chain st) [], st).
Proof. unfold validateChain, bind, getChain. apply validateChain_loop_run. Qed.

Lemma chainFind_frame (pred : Block.t -> bool) (todo : list loc) (st : Blockchain) :
  snd (chainFind pred todo st) = st.
Proof.
  induction todo as [|l rest IH]; simpl; [reflexivity|].
  unfold bind, readBlock, ret; simpl.
  destruct (pred (blockAt st l)); [reflexivity | apply IH].
Qed.

Lemma getStars_loop_frame (address : string) (todo : list loc) (stars : list jsval)
    (st : Blockchain) :
  snd (getStars_loop sv address todo stars st) = st.
Proof.
  revert stars.
  induction todo as [|l rest IH]; intros stars; simpl; [reflexivity|].
  unfold bind, readBlock, tryCatch, getBData, ret, throw; simpl.
  destruct (heightIs (blockAt st l) 0); [apply IH|].
  unfold bind, readBlock; simpl.
  destruct (decode sv (Block.body (blockAt st l))) as [body|]; simpl; [|apply IH].
  destruct (getProp body "owner") as [e|owner]; simpl; [reflexivity|].
  destruct (strictEqStr owner address); apply IH.
Qed.

End Runs.

(** ** The freshness window *)

Section Freshness.

Lemma quot_window (d : Z) : (300 <=? Z.quot d 1000) = (300 * 1000 <=? d).
Proof.
  destruct (Z.leb_spec (300 * 1000) d) as [Hd|Hd].
  - apply Z.leb_le.
    assert (H : Z.quot (300 * 1000) 1000 <= Z.quot d 1000)
      by (apply Z.quot_le_mono; lia).
    rewrite Z.quot_mul in H by lia. exact H.
  - apply Z.leb_gt.
    destruct (Z.le_gt_cases 0 d) as [Hpos|Hneg].
    + apply Z.quot_lt_upper_bound; lia.
    + assert (H : Z.quot d 1000 <= 0).
      { rewrite <- (Z.opp_involutive d), Z.quot_opp_l by lia.
        assert (0 <= Z.quot (- d) 1000) by (apply Z.quot_pos; lia). lia. }
      lia.
Qed.

Lemma expired_iff (now t : Z) (message : string) :
  mMessageTime message = Some t ->
  numGe (elapsedTimeInSeconds now message) FIVE_MINUTES_IN_SECONDS
  = (300 * 1000 <=? now - t).
Proof.
  intros Ht. unfold elapsedTimeInSeconds. rewrite Ht. simpl.
  apply quot_window.
Qed.

Lemma invalid_moment_passes (now : Z) (message : string) :
  mMessageTime message = None ->
  numGe (elapsedTimeInSeconds now message) FIVE_MINUTES_IN_SECONDS = false.
Proof. intros Ht. unfold elapsedTimeInSeconds. rewrite Ht. reflexivity. Qed.

Lemma missing_field_is_NaN (message : string) :
  splitOn ":"%char message !! 1%nat = None -> mMessageTime message = None.
Proof. intros H. unfold mMessageTime, messageTime. rewrite H. reflexivity. Qed.

End Freshness.

(** ** The store of block objects *)

Section Store.

Lemma deref_insert_eq (h : list Block.t) (l : loc) (b : Block.t) :
  (l < length h)%nat -> deref (<[l := b]> h) l = b.
Proof. intros Hl. unfold deref. rewrite list_lookup_insert_eq by exact Hl. reflexivity. Qed.

Lemma deref_insert_ne (h : list Block.t) (l l' : loc) (b : Block.t) :
  l <> l' -> deref (<[l := b]> h) l' = deref h l'.
Proof. intros Hne. unfold deref. rewrite list_lookup_insert_ne by exact Hne. reflexivity. Qed.

Lemma deref_app_old (h : list Block.t) (l : loc) (b : Block.t) :
  (l < length h)%nat -> deref (h ++ [b]) l = deref h l.
Proof. intros Hl. unfold deref. rewrite lookup_app_l by exact Hl. reflexivity. Qed.

Lemma deref_app_new (h : list Block.t) (b : Block.t) :
  deref (h ++ [b]) (length h) = b.
Proof.
  unfold deref. rewrite lookup_app_r by lia.
  replace (length h - length h)%nat with 0%nat by lia. reflexivity.
Qed.

(** A write of the height leaves the hash of every object as it was. *)
Lemma hash_after_setHeight (h : list Block.t) (l l' : loc) (v : option Z) :
  Block.hash (deref (<[l := Block.setHeight v (deref h l)]> h) l')
  = Block.hash (deref h l').
Proof.
  destruct (decide (l = l')) as [->|Hne].
  - destruct (decide (l' < length h)%nat) as [Hl|Hl].
    + rewrite deref_insert_eq by exact Hl. reflexivity.
    + rewrite list_insert_ge by lia. reflexivity.
  - rewrite deref_insert_ne by exact Hne. reflexivity.
Qed.

End Store.

(** ** How [_addBlock] runs *)

Section Append.

Context (sv : Services).

Lemma addBlock_guard_error (now : Z) (block : loc) (st : Blockchain) (e : jserror) :
  reports sv st (chain st) [] = inl e ->
  _addBlock sv now block st = (inl e, st).
Proof.
  intros H. unfold _addBlock, bind. rewrite validateChain_run, H. reflexivity.
Qed.

Lemma addBlock_guard_closed (now : Z) (block : loc) (st : Blockchain)
    (errorLog : list loc) :
  reports sv st (chain st) [] = inr errorLog -> errorLog <> [] ->
  _addBlock sv now block st = (inl ChainInvalidError, st).
Proof.
  intros H Hne. unfold _addBlock, bind. rewrite validateChain_run, H.
  destruct errorLog as [|l rest]; [congruence | reflexivity].
Qed.

Lemma bind_ret_run {A} (m : M A) (st : Blockchain) : bind m ret st = m st.
Proof. unfold bind, ret. destruct (m st) as [[e|x] st']; reflexivity. Qed.

Lemma initializeChain_snd (now : Z) (st : Blockchain) :
  snd (initializeChain sv now st)
  = if height st =? -1 then snd (appendNew sv now genesisData st) else st.
Proof.
  unfold initializeChain, appendNew, bind, getHeight. simpl.
  destruct (height st =? -1); [|reflexivity].
  destruct (_addBlock sv now _ _) as [[e|l] st2]; reflexivity.
Qed.

Lemma initializeChain_fst (now : Z) (st : Blockchain) :
  fst (initializeChain sv now st)
  = if height st =? -1
    then match fst (appendNew sv now genesisData st) with
         | inl e => inl e
         | inr _ => inr tt
         end
    else inr tt.
Proof.
  unfold initializeChain, appendNew, bind, getHeight. simpl.
  destruct (height st =? -1); [|reflexivity].
  destruct (_addBlock sv now _ _) as [[e|l] st2]; reflexivity.
Qed.

Lemma verifyAndAppend_throws (commitTime : Z) (address message signature : string)
    (star : jsval) (st : Blockchain) (e : jserror) :
  verify sv message address signature = inl e ->
  verifyAndAppend sv commitTime address message signature star st = (inl e, st).
Proof. intros Hv. unfold verifyAndAppend. rewrite Hv. reflexivity. Qed.

Lemma verifyAndAppend_invalid (commitTime : Z) (address message signature : string)
    (star : jsval) (st : Blockchain) :
  verify sv message address signature = inr false ->
  verifyAndAppend sv commitTime address message signature star st
  = (inl InvalidSignatureError, st).
Proof. intros Hv. unfold verifyAndAppend. rewrite Hv. reflexivity. Qed.

Lemma verifyAndAppend_valid (commitTime : Z) (address message signature : string)
    (star : jsval) (st : Blockchain) :
  verify sv message address signature = inr true ->
  verifyAndAppend sv commitTime address message signature star st
  = appendNew sv commitTime (starData address star) st.
Proof.
  intros Hv. unfold verifyAndAppend, appendNew. rewrite Hv. simpl.
  unfold bind at 1. unfold bind at 2.
  destruct (Block_new sv (starData address star) st) as [[e|block] st1];
    [reflexivity | apply bind_ret_run].
Qed.

Lemma addBlock_commits (now : Z) (block : loc) (st : Blockchain) :
  reports sv st (chain st) [] = inr [] ->
  (block < length (heap st))%nat ->
  (0 < height st + 1 -> chain st <> []) ->
  _addBlock sv now block st = (inr block, committed sv st now block).
Proof.
  intros Hrep Hlive Hlast.
  unfold _addBlock, bind. rewrite validateChain_run, Hrep. simpl.
  unfold committed, stamped, bind, getHeight, writeBlock, getChain, readBlock,
    generateNewHash, pushChain, putHeight, ret, throw, blockAt; simpl.
  destruct (0 <? height st + 1) eqn:Hpos; simpl.
  - apply Z.ltb_lt in Hpos. specialize (Hlast Hpos).
    destruct (chain st !! (length (chain st) - 1)%nat) as [lastBlock|] eqn:Hl.
    + simpl. unfold bind; simpl.
      rewrite hash_after_setHeight.
      rewrite !deref_insert_eq by (rewrite ?length_insert; exact Hlive).
      rewrite !list_insert_insert_eq. reflexivity.
    + apply lookup_ge_None in Hl. destruct (chain st); [congruence | simpl in Hl; lia].
  - rewrite !deref_insert_eq by (rewrite ?length_insert; exact Hlive).
    rewrite !list_insert_insert_eq. reflexivity.
Qed.

Lemma addBlock_split (now : Z) (block : loc) (st : Blockchain) :
  _addBlock sv now block st
  = bind (validateChain sv)
         (fun errorLogs => _addBlock_resume sv errorLogs now block) st.
Proof. reflexivity. Qed.

Lemma addBlock_resume_commits (now : Z) (block : loc) (st : Blockchain) :
  (block < length (heap st))%nat ->
  (0 < height st + 1 -> chain st <> []) ->
  _addBlock_resume sv [] now block st = (inr block, committed sv st now block).
Proof.
  intros Hlive Hlast.
  unfold _addBlock_resume, bind. simpl.
  unfold committed, stamped, bind, getHeight, writeBlock, getChain, readBlock,
    generateNewHash, pushChain, putHeight, ret, throw, blockAt; simpl.
  destruct (0 <? height st + 1) eqn:Hpos; simpl.
  - apply Z.ltb_lt in Hpos. specialize (Hlast Hpos).
    destruct (chain st !! (length (chain st) - 1)%nat) as [lastBlock|] eqn:Hl.
    + simpl. unfold bind; simpl.
      rewrite hash_after_setHeight.
      rewrite !deref_insert_eq by (rewrite ?length_insert; exact Hlive).
      rewrite !list_insert_insert_eq. reflexivity.
    + apply lookup_ge_None in Hl. destruct (chain st); [congruence | simpl in Hl; lia].
  - rewrite !deref_insert_eq by (rewrite ?length_insert; exact Hlive).
    rewrite !list_insert_insert_eq. reflexivity.
Qed.

End Append.

(** ** Representation invariants of reachable ledgers *)

Section WellFormed.

Context (sv : Services).

Lemma addBlock_outcome (now : Z) (block : loc) (st : Blockchain) :
  cacheAgrees st -> (block < length (heap st))%nat ->
  _addBlock sv now block st = (inr block, committed sv st now block)
  \/ exists e, _addBlock sv now block st = (inl e, st).
Proof.
  intros Hcache Hlive.
  destruct (reports sv st (chain st) []) as [e|errorLog] eqn:Hrep.
  - right. exists e. apply addBlock_guard_error, Hrep.
  - destruct errorLog as [|l rest].
    + left. apply addBlock_commits; [exact Hrep | exact Hlive |].
      unfold cacheAgrees in Hcache. intros Hpos Hnil.
      rewrite Hnil in Hcache. simpl in Hcache. lia.
    + right. exists ChainInvalidError.
      eapply addBlock_guard_closed; [exact Hrep | discriminate].
Qed.

Lemma committed_cacheAgrees (now : Z) (block : loc) (st : Blockchain) :
  cacheAgrees st -> cacheAgrees (committed sv st now block).
Proof.
  unfold cacheAgrees, committed. simpl. intros ->.
  rewrite length_app. simpl. lia.
Qed.

Lemma committed_refsLive (now : Z) (block : loc) (st : Blockchain) :
  refsLive st -> (block < length (heap st))%nat ->
  refsLive (committed sv st now block).
Proof.
  unfold refsLive, committed. simpl. intros Hrefs Hlive.
  rewrite length_insert. apply Forall_app. split; [exact Hrefs|].
  constructor; [exact Hlive | constructor].
Qed.

Lemma alloc_cacheAgrees (b : Block.t) (st : Blockchain) :
  cacheAgrees st -> cacheAgrees (snd (allocBlock b st)).
Proof. intros H. exact H. Qed.

Lemma alloc_refsLive (b : Block.t) (st : Blockchain) :
  refsLive st -> refsLive (snd (allocBlock b st)).
Proof.
  unfold refsLive. simpl. intros H. eapply Forall_impl; [exact H|].
  intros l Hl. simpl in Hl. rewrite length_app. simpl. lia.
Qed.

Lemma addBlock_wellFormed (now : Z) (block : loc) (st : Blockchain) :
  cacheAgrees st /\ refsLive st -> (block < length (heap st))%nat ->
  cacheAgrees (snd (_addBlock sv now block st))
  /\ refsLive (snd (_addBlock sv now block st)).
Proof.
  intros [Hcache Hrefs] Hlive.
  destruct (addBlock_outcome now block st Hcache Hlive) as [Hok|[e He]].
  - rewrite Hok. simpl. split.
    + apply committed_cacheAgrees, Hcache.
    + apply committed_refsLive; assumption.
  - rewrite He. simpl. split; assumption.
Qed.

Lemma appendNew_wellFormed (now : Z) (data : jsval) (st : Blockchain) :
  cacheAgrees st /\ refsLive st ->
  cacheAgrees (snd (appendNew sv now data st))
  /\ refsLive (snd (appendNew sv now data st)).
Proof.
  intros [Hcache Hrefs]. unfold appendNew, bind, Block_new. simpl.
  apply addBlock_wellFormed.
  - split; [exact Hcache | apply (alloc_refsLive _ st Hrefs)].
  - simpl. rewrite length_app. simpl. lia.
Qed.

Lemma initializeChain_wellFormed (now : Z) (st : Blockchain) :
  cacheAgrees st /\ refsLive st ->
  cacheAgrees (snd (initializeChain sv now st))
  /\ refsLive (snd (initializeChain sv now st)).
Proof.
  intros Hwf. rewrite initializeChain_snd.
  destruct (height st =? -1); [|exact Hwf].
  apply appendNew_wellFormed, Hwf.
Qed.

Lemma submitStar_wellFormed (now commitTime : Z) (address message signature : string)
    (star : jsval) (st : Blockchain) :
  cacheAgrees st /\ refsLive st ->
  cacheAgrees (snd (submitStar sv now commitTime address message signature star st))
  /\ refsLive (snd (submitStar sv now commitTime address message signature star st)).
Proof.
  intros Hwf. unfold submitStar.
  destruct (numGe _ _); [exact Hwf|].
  destruct (verify sv message address signature) as [e|[|]] eqn:Hv.
  - rewrite (verifyAndAppend_throws _ _ _ _ _ _ _ _ Hv). exact Hwf.
  - rewrite (verifyAndAppend_valid _ _ _ _ _ _ _ Hv).
    apply appendNew_wellFormed, Hwf.
  - rewrite (verifyAndAppend_invalid _ _ _ _ _ _ _ Hv). exact Hwf.
Qed.

Lemma tamper_wellFormed (h : Z) (st : Blockchain) :
  cacheAgrees st /\ refsLive st ->
  cacheAgrees (snd (tamperWithBlockByHeight h st))
  /\ refsLive (snd (tamperWithBlockByHeight h st)).
Proof.
  intros [Hcache Hrefs]. unfold tamperWithBlockByHeight, getBlockByHeight, bind, getChain.
  simpl.
  pose proof (chainFind_frame (fun p => heightIs p h) (chain st) st) as Hframe.
  destruct (chainFind (fun p => heightIs p h) (chain st) st) as [[e|[block|]] st1];
    simpl in *; subst st1; try (split; assumption).
  split; [exact Hcache|].
  unfold refsLive. simpl. rewrite length_insert. exact Hrefs.
Qed.

Lemma reachable_wellFormed (st : Blockchain) :
  reachable sv st -> cacheAgrees st /\ refsLive st.
Proof.
  induction 1 as [ | now st _ IH | data st _ IH | now block st _ IH Hlive
                   | now commitTime address message signature star st _ IH
                   | h st _ IH ].
  - split; [reflexivity | constructor].
  - apply initializeChain_wellFormed, IH.
  - destruct IH as [Hc Hr]. split; [exact Hc | apply (alloc_refsLive _ st Hr)].
  - apply addBlock_wellFormed; assumption.
  - apply submitStar_wellFormed, IH.
  - apply tamper_wellFormed, IH.
Qed.

End WellFormed.

(** ** Appending a newly constructed block *)

Section Fresh.

Context (sv : Services).

Lemma blockAt_alloc (b : Block.t) (st : Blockchain) (l : loc) :
  (l < length (heap st))%nat -> blockAt (snd (allocBlock b st)) l = blockAt st l.
Proof. intros Hl. unfold blockAt. simpl. apply deref_app_old, Hl. Qed.

Lemma map_blockAt_ext (st st' : Blockchain) (ls : list loc) :
  Forall (fun l => blockAt st' l = blockAt st l) ls ->
  map (blockAt st') ls = map (blockAt st) ls.
Proof. induction 1 as [|l ls Hl _ IH]; simpl; [reflexivity | rewrite Hl, IH; reflexivity]. Qed.

Lemma blocks_alloc (b : Block.t) (st : Blockchain) :
  refsLive st -> blocks (snd (allocBlock b st)) = blocks st.
Proof.
  intros Hrefs. unfold blocks. simpl. apply map_blockAt_ext.
  eapply Forall_impl; [exact Hrefs|]. intros l Hl. apply blockAt_alloc, Hl.
Qed.

Lemma blocks_committed_new (now : Z) (b : Block.t) (st : Blockchain) :
  refsLive st ->
  blocks (committed sv (snd (allocBlock b st)) now (length (heap st)))
  = blocks st ++ [stamped sv (snd (allocBlock b st)) now (length (heap st))].
Proof.
  intros Hrefs. unfold blocks, committed. simpl. rewrite map_app. simpl. f_equal.
  - apply map_blockAt_ext. eapply Forall_impl; [exact Hrefs|].
    intros l Hl. simpl in Hl. unfold blockAt. simpl.
    rewrite deref_insert_ne by lia. apply deref_app_old, Hl.
  - f_equal. unfold blockAt at 1. simpl. apply deref_insert_eq.
    rewrite length_app. simpl. lia.
Qed.

Lemma blockReport_alloc (b : Block.t) (st : Blockchain) (l : loc) :
  refsLive st -> (l < length (heap st))%nat ->
  blockReport sv (snd (allocBlock b st)) l = blockReport sv st l.
Proof.
  intros Hrefs Hl. unfold blockReport. rewrite blockAt_alloc by exact Hl.
  change (chain (snd (allocBlock b st))) with (chain st).
  destruct (Block.height (blockAt st l)) as [h|]; [|reflexivity].
  destruct (0 <? h); [|reflexivity].
  destruct (chain st !! Z.to_nat (h - 1)) as [prev|] eqn:Hprev; [|reflexivity].
  rewrite blockAt_alloc; [reflexivity|].
  unfold refsLive in Hrefs. rewrite Forall_lookup in Hrefs. eapply Hrefs, Hprev.
Qed.

Lemma reports_alloc (b : Block.t) (st : Blockchain) (todo errorLog : list loc) :
  refsLive st -> Forall (fun l => (l < length (heap st))%nat) todo ->
  reports sv (snd (allocBlock b st)) todo errorLog = reports sv st todo errorLog.
Proof.
  intros Hrefs Htodo. revert errorLog.
  induction Htodo as [|l rest Hl _ IH]; intros errorLog; cbn [reports]; [reflexivity|].
  rewrite blockReport_alloc by assumption.
  destruct (blockReport sv st l); [reflexivity | apply IH].
Qed.

(** An append of a new block either commits it or leaves the ledger with
    one more unreferenced object in the store. *)
Lemma appendNew_outcome (now : Z) (data : jsval) (st : Blockchain) :
  cacheAgrees st ->
  let st1 := snd (Block_new sv data st) in
  appendNew sv now data st = (inr (length (heap st)), committed sv st1 now (length (heap st)))
  \/ exists e, appendNew sv now data st = (inl e, st1).
Proof.
  intros Hcache st1. unfold appendNew, bind. simpl.
  apply (addBlock_outcome sv now (length (heap st)) st1).
  - exact Hcache.
  - unfold st1. simpl. rewrite length_app. simpl. lia.
Qed.

Lemma appendNew_valid_chain (now : Z) (data : jsval) (st : Blockchain) :
  cacheAgrees st -> refsLive st ->
  reports sv st (chain st) [] = inr [] ->
  appendNew sv now data st
  = (inr (length (heap st)),
     committed sv (snd (Block_new sv data st)) now (length (heap st))).
Proof.
  intros Hcache Hrefs Hrep. unfold appendNew, bind, Block_new.
  set (b := Block.mk None None (encode sv data) None None).
  change (allocBlock b st) with (inr (A := jserror) (length (heap st)), snd (allocBlock b st)).
  cbv iota beta.
  apply addBlock_commits.
  - exact (eq_trans (reports_alloc b st (chain st) [] Hrefs Hrefs) Hrep).
  - simpl. rewrite length_app. simpl. lia.
  - simpl. unfold cacheAgrees in Hcache. intros Hpos Hnil.
    rewrite Hnil in Hcache. simpl in Hcache. lia.
Qed.

Lemma stamped_height (st : Blockchain) (now : Z) (l : loc) :
  Block.height (stamped sv st now l) = Some (height st + 1).
Proof.
  unfold stamped. destruct (0 <? height st + 1); [|reflexivity].
  destruct (chain st !! (length (chain st) - 1)%nat); reflexivity.
Qed.

Lemma stamped_body (st : Blockchain) (now : Z) (l : loc) :
  Block.body (stamped sv st now l) = Block.body (blockAt st l).
Proof.
  unfold stamped. destruct (0 <? height st + 1); [|reflexivity].
  destruct (chain st !! (length (chain st) - 1)%nat); reflexivity.
Qed.

Lemma stamped_first (st : Blockchain) (now : Z) (l : loc) :
  height st = -1 ->
  Block.previousBlockHash (stamped sv st now l)
  = Block.previousBlockHash (blockAt st l).
Proof. intros Hh. unfold stamped. rewrite Hh. reflexivity. Qed.

Lemma stamped_link (st : Blockchain) (now : Z) (l lastBlock : loc) :
  0 < height st + 1 ->
  chain st !! (length (chain st) - 1)%nat = Some lastBlock ->
  Block.previousBlockHash (stamped sv st now l) = Block.hash (blockAt st lastBlock).
Proof.
  intros Hpos Hlast. unfold stamped.
  apply Z.ltb_lt in Hpos. rewrite Hpos, Hlast. reflexivity.
Qed.

Lemma appendNew_chainInvariant (now : Z) (data : jsval) (st : Blockchain) :
  cacheAgrees st -> refsLive st -> chainInvariant st ->
  chainInvariant (snd (appendNew sv now data st)).
Proof.
  intros Hcache Hrefs (Hheights & Hgenesis & Hlinked).
  destruct (appendNew_outcome now data st Hcache) as [Hok|[e He]].
  2:{ rewrite He. unfold chainInvariant, heightsMatch, genesisUnlinked, linked.
      cbn [snd]. unfold Block_new. rewrite (blocks_alloc _ st Hrefs). auto. }
  rewrite Hok. cbn [snd]. unfold Block_new.
  set (st1 := snd (allocBlock _ st)).
  set (x := stamped sv st1 now (length (heap st))).
  assert (Hblocks : blocks (committed sv st1 now (length (heap st))) = blocks st ++ [x])
    by (apply blocks_committed_new, Hrefs).
  assert (Hlen : length (blocks st) = length (chain st))
    by (unfold blocks; apply length_map).
  unfold cacheAgrees in Hcache.
  unfold chainInvariant, heightsMatch, genesisUnlinked, linked.
  rewrite Hblocks. repeat split.
  - intros i b Hi.
    destruct (decide (i < length (blocks st))%nat) as [Hlt|Hge].
    + rewrite lookup_app_l in Hi by exact Hlt. apply Hheights, Hi.
    + rewrite lookup_app_r in Hi by lia.
      destruct (i - length (blocks st))%nat as [|k] eqn:Hk; simpl in Hi; [|discriminate].
      injection Hi as <-. unfold x. rewrite stamped_height.
      change (height st1) with (height st). f_equal. lia.
  - intros b H0.
    destruct (blocks st) as [|b0 bs] eqn:Hbs.
    + simpl in H0. injection H0 as <-. unfold x.
      rewrite stamped_first.
      * unfold blockAt, st1. simpl. rewrite deref_app_new. reflexivity.
      * change (height st1) with (height st). simpl in Hlen. lia.
    + apply Hgenesis. rewrite Hbs. exact H0.
  - intros i b p Hb Hp.
    destruct (decide (S i < length (blocks st))%nat) as [Hlt|Hge].
    + rewrite lookup_app_l in Hb by exact Hlt.
      rewrite lookup_app_l in Hp by lia. eapply Hlinked; eassumption.
    + rewrite lookup_app_r in Hb by lia.
      destruct (S i - length (blocks st))%nat as [|k] eqn:Hk; simpl in Hb; [|discriminate].
      injection Hb as <-.
      rewrite lookup_app_l in Hp by lia.
      unfold blocks in Hp. rewrite list_lookup_fmap in Hp.
      destruct (chain st !! i) as [lastBlock|] eqn:Hlast; simpl in Hp; [|discriminate].
      injection Hp as <-.
      unfold x. rewrite (stamped_link st1 now _ lastBlock).
      * f_equal. apply blockAt_alloc.
        unfold refsLive in Hrefs. rewrite Forall_lookup in Hrefs. eapply Hrefs, Hlast.
      * change (height st1) with (height st). lia.
      * change (chain st1) with (chain st).
        replace (length (chain st) - 1)%nat with i by lia. exact Hlast.
Qed.

End Fresh.

(** ** What the scans collect *)

Section Scans.

Context (sv : Services).

Lemma blockReport_failures (st : Blockchain) (l : loc) (r : list loc) :
  blockReport sv st l = inr r -> r = failures sv st l.
Proof.
  unfold blockReport, failures, selfBroken, linkBroken.
  destruct (Block.height (blockAt st l)) as [h|].
  - destruct (0 <? h); simpl.
    + destruct (chain st !! Z.to_nat (h - 1)) as [prev|]; [|discriminate].
      intros [= <-].
      destruct (selfConsistent sv (blockAt st l)), (optStrEq _ _); reflexivity.
    + intros [= <-]. destruct (selfConsistent sv (blockAt st l)); reflexivity.
  - intros [= <-]. destruct (selfConsistent sv (blockAt st l)); reflexivity.
Qed.

Lemma reports_flat_map (st : Blockchain) (todo errorLog r : list loc) :
  reports sv st todo errorLog = inr r ->
  r = errorLog ++ flat_map (failures sv st) todo.
Proof.
  revert errorLog.
  induction todo as [|l rest IH]; intros errorLog; simpl.
  - intros [= <-]. rewrite app_nil_r. reflexivity.
  - destruct (blockReport sv st l) as [e|r0] eqn:Hr; [discriminate|].
    intros H. apply IH in H. rewrite H, <- app_assoc.
    rewrite (blockReport_failures st l r0 Hr). reflexivity.
Qed.

Lemma failures_shape (st : Blockchain) (l : loc) :
  failures sv st l = [] \/ failures sv st l = [l] \/ failures sv st l = [l; l].
Proof.
  unfold failures.
  destruct (selfBroken sv (blockAt st l)), (linkBroken st (blockAt st l)); simpl; auto.
Qed.

Lemma canReadProps_getProp (v : jsval) (k : string) :
  canReadProps v = true -> exists x, getProp v k = inr x.
Proof. destruct v; simpl; try discriminate; eauto. Qed.

Lemma getStars_loop_cons (address : string) (l : loc) (rest : list loc)
    (stars : list jsval) (st : Blockchain) :
  getStars_loop sv address (l :: rest) stars st
  = if heightIs (blockAt st l) 0 then getStars_loop sv address rest stars st
    else match decode sv (Block.body (blockAt st l)) with
         | None => getStars_loop sv address rest stars st
         | Some body =>
             match getProp body "owner" with
             | inl e => (inl e, st)
             | inr owner =>
                 if strictEqStr owner address
                 then getStars_loop sv address rest (stars ++ [body]) st
                 else getStars_loop sv address rest stars st
             end
         end.
Proof.
  simpl. unfold bind, readBlock, tryCatch, getBData, ret, throw; simpl.
  destruct (heightIs (blockAt st l) 0); [reflexivity|].
  unfold bind, readBlock; simpl.
  destruct (decode sv (Block.body (blockAt st l))) as [body|]; simpl; [|reflexivity].
  destruct (getProp body "owner") as [e|owner]; simpl; [reflexivity|].
  destruct (strictEqStr owner address); reflexivity.
Qed.

Lemma getStars_loop_run (address : string) (todo : list loc) (stars : list jsval)
    (st : Blockchain) :
  forallb canReadProps (omap (decodedRecord sv) (map (blockAt st) todo)) = true ->
  getStars_loop sv address todo stars st
  = (inr (stars ++ List.filter (ownedBy address)
                     (omap (decodedRecord sv) (map (blockAt st) todo))), st).
Proof.
  revert stars.
  induction todo as [|l rest IH]; intros stars Hread.
  - simpl. rewrite app_nil_r. reflexivity.
  - rewrite getStars_loop_cons.
    cbn [map omap list_omap] in Hread |- *.
    unfold decodedRecord at 1. unfold decodedRecord at 1 in Hread.
    destruct (heightIs (blockAt st l) 0); [apply IH, Hread|].
    destruct (decode sv (Block.body (blockAt st l))) as [body|];
      [|apply IH, Hread].
    cbn [forallb] in Hread. apply andb_true_iff in Hread as [Hbody Hrest].
    cbn [List.filter]. unfold ownedBy at 1.
    destruct (canReadProps_getProp body "owner" Hbody) as [owner ->].
    destruct (strictEqStr owner address).
    + rewrite IH by exact Hrest. rewrite <- app_assoc. reflexivity.
    + apply IH, Hrest.
Qed.

End Scans.

(** ** The sample ledgers are reachable *)

Lemma challenge_as_issued (st : Blockchain) :
  requestMessageOwnershipVerification 2000 "alice" st
  = (inr (Demo.challenge 2000 "alice"), st)
  /\ mMessageTime (Demo.challenge 2000 "alice") = Some 2000.
Proof. split; reflexivity. Qed.

Lemma ready_reachable : reachable Demo.services Demo.ready.
Proof. unfold Demo.ready, Demo.run. apply reach_initializeChain, reach_new. Qed.

Lemma withStars_reachable : reachable Demo.services Demo.withStars.
Proof.
  unfold Demo.withStars, Demo.claim, Demo.run.
  apply reach_submitStar, reach_submitStar, reach_submitStar, ready_reachable.
Qed.

Lemma tampered_reachable : reachable Demo.services Demo.tampered.
Proof.
  unfold Demo.tampered, Demo.run.
  apply reach_tamper, reach_tamper, withStars_reachable.
Qed.

(** ** Properties of the append guard and of the read-only methods *)

Section Guard.

Context (sv : Services).

(** C1.  When [validateChain] resolves with a non-empty error list,
    [_addBlock] rejects with the error "Blockchain is not valid" and the
    ledger after the call is the ledger before it: the chain, the cached
    height and every block object in the store are untouched. *)
Theorem addBlock_rejects_when_chain_invalid
    (st : Blockchain) (now : Z) (block : loc) (errorLog : list loc) :
  fst (validateChain sv st) = inr errorLog ->
  errorLog <> [] ->
  _addBlock sv now block st = (inl ChainInvalidError, st).
Proof.
  intros Hlog Hne. rewrite validateChain_run in Hlog. simpl in Hlog.
  eapply addBlock_guard_closed; eassumption.
Qed.

(** C10.  [getBlockByHash], [getBlockByHeight], [getStarsByWalletAddress]
    and [validateChain] return the ledger they were given, whatever their
    argument and whatever they resolve or reject with; the references in
    the error list of [validateChain] are references held by the chain. *)
Theorem lookups_leave_ledger_unchanged
    (st : Blockchain) (hash address : string) (h : Z) :
  snd (getBlockByHash hash st) = st
  /\ snd (getBlockByHeight h st) = st
  /\ snd (getStarsByWalletAddress sv address st) = st
  /\ snd (validateChain sv st) = st
  /\ (forall (errorLog : list loc) (l : loc),
        fst (validateChain sv st) = inr errorLog ->
        In l errorLog -> In l (chain st)).
Proof.
  repeat split.
  - unfold getBlockByHash, bind, getChain. apply chainFind_frame.
  - unfold getBlockByHeight, bind, getChain. apply chainFind_frame.
  - unfold getStarsByWalletAddress, bind, getChain. apply getStars_loop_frame.
  - rewrite validateChain_run. reflexivity.
  - intros errorLog l Hlog Hin. rewrite validateChain_run in Hlog. simpl in Hlog.
    apply reports_flat_map in Hlog. subst errorLog. simpl in Hin.
    apply in_flat_map in Hin as (l' & Hl' & Hin).
    destruct (failures_shape sv st l') as [H|[H|H]]; rewrite H in Hin; simpl in Hin.
    + contradiction.
    + destruct Hin as [<-|[]]. exact Hl'.
    + destruct Hin as [<-|[<-|[]]]; exact Hl'.
Qed.

(** C7, as amended.  The error list of [validateChain] is put together in
    chain order and holds a block's reference once for each check the
    block fails: not at all, once, or twice in a row when both the
    self-consistency check and the linkage check fail. *)
Theorem validateChain_error_list (st : Blockchain) (errorLog : list loc) :
  fst (validateChain sv st) = inr errorLog ->
  errorLog = flat_map (failures sv st) (chain st)
  /\ (forall l : loc,
        failures sv st l = [] \/ failures sv st l = [l] \/ failures sv st l = [l; l])
  /\ (forall l : loc,
        selfBroken sv (blockAt st l) = true ->
        linkBroken st (blockAt st l) = true ->
        failures sv st l = [l; l]).
Proof.
  intros Hlog. rewrite validateChain_run in Hlog. simpl in Hlog.
  apply reports_flat_map in Hlog. simpl in Hlog.
  split; [exact Hlog|]. split.
  - apply failures_shape.
  - intros l Hself Hlink. unfold failures. rewrite Hself, Hlink. reflexivity.
Qed.

End Guard.

(** C1 on the tampered sample ledger. *)
Lemma addBlock_rejects_when_chain_invalid_witness :
  _addBlock Demo.services 7000 1%nat Demo.tampered
  = (inl ChainInvalidError, Demo.tampered).
Proof.
  apply (addBlock_rejects_when_chain_invalid Demo.services Demo.tampered 7000 1%nat
           [0; 1; 1; 2]%nat).
  - vm_compute. reflexivity.
  - discriminate.
Defined.

(** C10 on the tampered sample ledger: the references reported are chain
    references. *)
Lemma lookups_leave_ledger_unchanged_witness :
  In 1%nat (chain Demo.tampered).
Proof.
  refine (proj2 (proj2 (proj2 (proj2
            (lookups_leave_ledger_unchanged Demo.services Demo.tampered "" "" 0))))
            [0; 1; 1; 2]%nat 1%nat _ _).
  - vm_compute. reflexivity.
  - simpl. auto.
Defined.

(** C7 as stated fails: after the hashes of the blocks at heights 0 and 1
    have been overwritten, the block at height 1 fails both checks and is
    listed twice, although the chain holds it once. *)
Lemma validateChain_reports_block_twice :
  NoDup (chain Demo.tampered)
  /\ fst (validateChain Demo.services Demo.tampered) = inr [0; 1; 1; 2]%nat
  /\ ~ NoDup [0; 1; 1; 2]%nat.
Proof.
  split; [|split].
  - apply (bool_decide_unpack _). vm_compute. exact I.
  - vm_compute. reflexivity.
  - intros H. apply NoDup_cons in H as [_ H]. apply NoDup_cons in H as [H _].
    apply H. left.
Qed.

(** C7 as amended, on the tampered sample ledger. *)
Lemma validateChain_error_list_witness :
  [0; 1; 1; 2]%nat = flat_map (failures Demo.services Demo.tampered) (chain Demo.tampered).
Proof.
  apply (validateChain_error_list Demo.services Demo.tampered [0; 1; 1; 2]%nat).
  vm_compute. reflexivity.
Defined.

(** ** Properties of [submitStar] *)

Section Submission.

Context (sv : Services).

(** C4.  A submission whose message carries a timestamp less than 300
    seconds old and whose signature [bitcoinMessage.verify] finds invalid is
    rejected with "Message is not valid", and the ledger after the call is
    the ledger before it: nothing is constructed or written before the
    append step. *)
Theorem submitStar_rejects_bad_signature
    (st : Blockchain) (now commitTime t : Z)
    (address message signature : string) (star : jsval) :
  mMessageTime message = Some t ->
  now - t < FIVE_MINUTES_IN_SECONDS * 1000 ->
  verify sv message address signature = inr false ->
  submitStar sv now commitTime address message signature star st
  = (inl InvalidSignatureError, st).
Proof.
  intros Ht Hfresh Hv. unfold submitStar.
  rewrite (expired_iff now t message Ht).
  unfold FIVE_MINUTES_IN_SECONDS in Hfresh.
  destruct (Z.leb_spec (300 * 1000) (now - t)) as [Hle|_]; [lia|].
  apply verifyAndAppend_invalid, Hv.
Qed.

(** C3, as amended.  For a message that carries the timestamp [t]:
    when [t] lies 300 seconds or more before the clock reading, the 300
    second boundary included, the submission is rejected as expired and
    the ledger is left as it was; when [t] lies less than 300 seconds
    before it and the signature verifies, then on a reachable ledger whose
    chain [validateChain] finds no fault with, the submission resolves with
    a newly constructed block, appended after the blocks already there, at
    height [height + 1]; on a reachable ledger whose chain [validateChain]
    reports faults in, it is rejected with "Blockchain is not valid" and the
    chain, its blocks and the height stay as they were. *)
Theorem submitStar_freshness_window
    (st : Blockchain) (now commitTime t : Z)
    (address message signature : string) (star : jsval) :
  mMessageTime message = Some t ->
  (FIVE_MINUTES_IN_SECONDS * 1000 <= now - t ->
     submitStar sv now commitTime address message signature star st
     = (inl ExpiredChallengeError, st))
  /\ (now - t < FIVE_MINUTES_IN_SECONDS * 1000 ->
      verify sv message address signature = inr true ->
      reachable sv st ->
      fst (validateChain sv st) = inr [] ->
      let st' := snd (submitStar sv now commitTime address message signature star st) in
      exists block : loc,
        fst (submitStar sv now commitTime address message signature star st) = inr block
        /\ ~ In block (chain st)
        /\ chain st' = chain st ++ [block]
        /\ blocks st' = blocks st ++ [blockAt st' block]
        /\ height st' = height st + 1
        /\ Block.height (blockAt st' block) = Some (height st + 1)
        /\ Block.body (blockAt st' block) = encode sv (starData address star))
  /\ (now - t < FIVE_MINUTES_IN_SECONDS * 1000 ->
      verify sv message address signature = inr true ->
      reachable sv st ->
      forall errorLog : list loc,
        fst (validateChain sv st) = inr errorLog -> errorLog <> [] ->
        let st' := snd (submitStar sv now commitTime address message signature star st) in
        fst (submitStar sv now commitTime address message signature star st)
        = inl ChainInvalidError
        /\ chain st' = chain st /\ blocks st' = blocks st /\ height st' = height st).
Proof.
  intros Ht. unfold FIVE_MINUTES_IN_SECONDS. split; [|split].
  - intros Hold. unfold submitStar. rewrite (expired_iff now t message Ht).
    destruct (Z.leb_spec (300 * 1000) (now - t)) as [_|Hlt]; [reflexivity | lia].
  - intros Hfresh Hv Hreach Hvalid. cbv zeta.
    unfold submitStar. rewrite (expired_iff now t message Ht).
    destruct (Z.leb_spec (300 * 1000) (now - t)) as [Hle|_]; [lia|].
    rewrite (verifyAndAppend_valid sv _ _ _ _ _ _ Hv).
    destruct (reachable_wellFormed sv st Hreach) as [Hcache Hrefs].
    rewrite validateChain_run in Hvalid. simpl in Hvalid.
    rewrite (appendNew_valid_chain sv commitTime _ st Hcache Hrefs Hvalid).
    cbn [fst snd]. unfold Block_new.
    set (st1 := snd (allocBlock _ st)).
    exists (length (heap st)).
    assert (Hnew : blockAt (committed sv st1 commitTime (length (heap st)))
                     (length (heap st))
                   = stamped sv st1 commitTime (length (heap st))).
    { unfold blockAt, committed. cbn [heap]. apply deref_insert_eq.
      unfold st1. simpl. rewrite length_app. simpl. lia. }
    split; [reflexivity|]. split.
    { intros Hin. unfold refsLive in Hrefs. rewrite Forall_forall in Hrefs.
      apply list_elem_of_In in Hin. apply Hrefs in Hin. lia. }
    split; [unfold st1; reflexivity|]. split.
    { rewrite Hnew. apply blocks_committed_new, Hrefs. }
    split; [unfold st1; reflexivity|]. rewrite Hnew. split.
    + exact (stamped_height sv st1 commitTime (length (heap st))).
    + rewrite stamped_body. unfold blockAt, st1. simpl.
      rewrite deref_app_new. reflexivity.
  - intros Hfresh Hv Hreach errorLog Hlog Hne. cbv zeta.
    unfold submitStar. rewrite (expired_iff now t message Ht).
    destruct (Z.leb_spec (300 * 1000) (now - t)) as [Hle|_]; [lia|].
    rewrite (verifyAndAppend_valid sv _ _ _ _ _ _ Hv).
    destruct (reachable_wellFormed sv st Hreach) as [Hcache Hrefs].
    rewrite validateChain_run in Hlog. simpl in Hlog.
    unfold appendNew, bind, Block_new.
    set (b := Block.mk None None (encode sv (starData address star)) None None).
    change (allocBlock b st)
      with (inr (A := jserror) (length (heap st)), snd (allocBlock b st)).
    cbv iota beta.
    rewrite (addBlock_guard_closed sv commitTime (length (heap st))
               (snd (allocBlock b st)) errorLog);
      [ | exact (eq_trans (reports_alloc sv b st (chain st) [] Hrefs Hrefs) Hlog)
        | exact Hne ].
    cbn [fst snd]. split; [reflexivity|]. split; [reflexivity|].
    split; [apply blocks_alloc, Hrefs | reflexivity].
Qed.

(** C5, as amended.  [submitStar] makes no test of the shape of the
    message and has no rejection for a malformed one: before the signature
    check it rejects with the expiry reason or not at all.  Whatever the
    number of its colon-delimited fields, a message whose second field
    parses to the timestamp [t] is judged by [t] alone: it is rejected as
    expired when [t] lies 300 seconds or more back, and is otherwise handed
    to the signature check and the append. *)
Theorem submitStar_checks_no_shape
    (st : Blockchain) (now commitTime : Z)
    (address message signature : string) (star : jsval) :
  (submitStar sv now commitTime address message signature star st
     = (inl ExpiredChallengeError, st)
   \/ submitStar sv now commitTime address message signature star st
      = verifyAndAppend sv commitTime address message signature star st)
  /\ (forall t : Z,
        mMessageTime message = Some t ->
        (FIVE_MINUTES_IN_SECONDS * 1000 <= now - t ->
           submitStar sv now commitTime address message signature star st
           = (inl ExpiredChallengeError, st))
        /\ (now - t < FIVE_MINUTES_IN_SECONDS * 1000 ->
            submitStar sv now commitTime address message signature star st
            = verifyAndAppend sv commitTime address message signature star st)).
Proof.
  split.
  - unfold submitStar. destruct (numGe _ _); [left | right]; reflexivity.
  - intros t Ht. unfold FIVE_MINUTES_IN_SECONDS, submitStar.
    rewrite (expired_iff now t message Ht).
    split; intros H; destruct (Z.leb_spec (300 * 1000) (now - t));
      first [reflexivity | lia].
Qed.

(** X15.  As the code runs, although its comment asks for less than five
    minutes: when the second colon-delimited field is missing or does not
    parse to a date, the elapsed time is [NaN], the test [>= 300] is false,
    and [submitStar] goes on to the signature check: an exception of the
    verifier is passed on, an invalid signature is rejected with "Message is
    not valid", and a valid one lets the block be constructed and handed to
    [_addBlock]. *)
Theorem submitStar_unparsed_timestamp
    (st : Blockchain) (now commitTime : Z)
    (address message signature : string) (star : jsval) :
  (submitStar sv now commitTime address message signature star st
     = (inl ExpiredChallengeError, st)
   \/ submitStar sv now commitTime address message signature star st
      = verifyAndAppend sv commitTime address message signature star st)
  /\ (mMessageTime message = None ->
      submitStar sv now commitTime address message signature star st
      = verifyAndAppend sv commitTime address message signature star st
      /\ (forall e, verify sv message address signature = inl e ->
            submitStar sv now commitTime address message signature star st = (inl e, st))
      /\ (verify sv message address signature = inr false ->
            submitStar sv now commitTime address message signature star st
            = (inl InvalidSignatureError, st))
      /\ (verify sv message address signature = inr true ->
            submitStar sv now commitTime address message signature star st
            = appendNew sv commitTime (starData address star) st)).
Proof.
  split.
  - unfold submitStar. destruct (numGe _ _); [left | right]; reflexivity.
  - intros Hnan.
    assert (Hrun : submitStar sv now commitTime address message signature star st
                   = verifyAndAppend sv commitTime address message signature star st).
    { unfold submitStar. rewrite (invalid_moment_passes now message Hnan). reflexivity. }
    rewrite Hrun. split; [reflexivity|]. split; [|split].
    + intros e Hv. apply verifyAndAppend_throws, Hv.
    + intros Hv. apply verifyAndAppend_invalid, Hv.
    + intros Hv. apply verifyAndAppend_valid, Hv.
Qed.

End Submission.

(** C4 on the sample ledger: a challenge 299 seconds old, signed for the
    wrong address. *)
Lemma submitStar_rejects_bad_signature_witness :
  submitStar Demo.services 301000 301000 "alice" (Demo.challenge 2000 "alice")
    (Demo.sign (Demo.challenge 2000 "alice") "bob") (JStr "Vega") Demo.withStars
  = (inl InvalidSignatureError, Demo.withStars).
Proof.
  apply (submitStar_rejects_bad_signature Demo.services Demo.withStars 301000 301000 2000).
  - vm_compute. reflexivity.
  - vm_compute. reflexivity.
  - vm_compute. reflexivity.
Defined.

(** C3 as stated fails: on the tampered sample ledger a challenge one second
    old with a signature that verifies is not accepted, since [_addBlock]
    refuses to extend a chain that does not validate. *)
Lemma fresh_claim_fails_on_tampered_chain :
  reachable Demo.services Demo.tampered
  /\ ~ freshClaimSucceeds Demo.services Demo.tampered.
Proof.
  split.
  - exact tampered_reachable.
  - intros H.
    destruct (H 3000 3000 2000 "alice"%string (Demo.challenge 2000 "alice")
                (Demo.sign (Demo.challenge 2000 "alice") "alice") (JStr "Vega"))
      as [block Hblock].
    + vm_compute. reflexivity.
    + vm_compute. reflexivity.
    + vm_compute. reflexivity.
    + vm_compute in Hblock. discriminate.
Qed.

(** C3 as amended, on the sample ledgers: a challenge exactly 300 seconds old
    is rejected, one 299.999 seconds old is committed, and on the tampered
    ledger a fresh one is turned away by [_addBlock]. *)
Lemma submitStar_freshness_window_witness :
  submitStar Demo.services 302000 302000 "alice" (Demo.challenge 2000 "alice")
    (Demo.sign (Demo.challenge 2000 "alice") "alice") (JStr "Vega") Demo.withStars
  = (inl ExpiredChallengeError, Demo.withStars)
  /\ (exists block : loc,
        fst (submitStar Demo.services 301999 301999 "alice" (Demo.challenge 2000 "alice")
               (Demo.sign (Demo.challenge 2000 "alice") "alice") (JStr "Vega")
               Demo.withStars) = inr block)
  /\ fst (submitStar Demo.services 3000 3000 "alice" (Demo.challenge 2000 "alice")
            (Demo.sign (Demo.challenge 2000 "alice") "alice") (JStr "Vega")
            Demo.tampered) = inl ChainInvalidError.
Proof.
  split; [|split].
  - apply (submitStar_freshness_window Demo.services Demo.withStars 302000 302000 2000).
    + vm_compute. reflexivity.
    + vm_compute. discriminate.
  - destruct (proj1 (proj2 (submitStar_freshness_window Demo.services Demo.withStars
                              301999 301999 2000 "alice" (Demo.challenge 2000 "alice")
                              (Demo.sign (Demo.challenge 2000 "alice") "alice")
                              (JStr "Vega") eq_refl)))
      as (block & Hblock & _).
    + vm_compute. reflexivity.
    + vm_compute. reflexivity.
    + exact withStars_reachable.
    + vm_compute. reflexivity.
    + exists block. exact Hblock.
  - pose proof (proj2 (proj2 (submitStar_freshness_window Demo.services Demo.tampered
                                3000 3000 2000 "alice" (Demo.challenge 2000 "alice")
                                (Demo.sign (Demo.challenge 2000 "alice") "alice")
                                (JStr "Vega") eq_refl))) as H.
    assert (Hfresh : 3000 - 2000 < FIVE_MINUTES_IN_SECONDS * 1000)
      by (vm_compute; reflexivity).
    assert (Hsig : verify Demo.services (Demo.challenge 2000 "alice") "alice"
                     (Demo.sign (Demo.challenge 2000 "alice") "alice") = inr true)
      by (vm_compute; reflexivity).
    assert (Hreach : reachable Demo.services Demo.tampered)
      by exact tampered_reachable.
    assert (Hlog : fst (validateChain Demo.services Demo.tampered) = inr [0; 1; 1; 2]%nat)
      by (vm_compute; reflexivity).
    assert (Hne : [0; 1; 1; 2]%nat <> []) by discriminate.
    exact (proj1 (H Hfresh Hsig Hreach _ Hlog Hne)).
Defined.

(** C5 as stated fails: the message "alice:2000" has two fields instead of
    three, yet its second field is read as the timestamp and, with a
    signature that verifies, the block is appended. *)
Lemma malformed_message_is_accepted :
  challengeShape "alice:2000" = false
  /\ fst (submitStar Demo.services 9000 9000 "alice" "alice:2000"
            (Demo.sign "alice:2000" "alice") (JStr "Vega") Demo.ready) = inr 1%nat
  /\ chain (snd (submitStar Demo.services 9000 9000 "alice" "alice:2000"
                   (Demo.sign "alice:2000" "alice") (JStr "Vega") Demo.ready))
     = [0; 1]%nat.
Proof. vm_compute. repeat split; reflexivity. Qed.

(** C5 as amended, on the sample ledger: the two-field message is judged by
    its timestamp and handed to the signature check. *)
Lemma submitStar_checks_no_shape_witness :
  submitStar Demo.services 9000 9000 "alice" "alice:2000"
    (Demo.sign "alice:2000" "bob") (JStr "Vega") Demo.ready
  = verifyAndAppend Demo.services 9000 "alice" "alice:2000"
      (Demo.sign "alice:2000" "bob") (JStr "Vega") Demo.ready.
Proof.
  refine (proj2 (proj2 (submitStar_checks_no_shape Demo.services Demo.ready 9000 9000
                          "alice" "alice:2000" (Demo.sign "alice:2000" "bob")
                          (JStr "Vega")) 2000 _) _).
  - vm_compute. reflexivity.
  - vm_compute. reflexivity.
Defined.

(** X15 on the sample ledger: "hello" with a signature that does not verify
    is rejected for its signature. *)
Lemma submitStar_unparsed_timestamp_witness :
  submitStar Demo.services 9000 9000 "alice" "hello" (Demo.sign "hello" "bob")
    (JStr "Vega") Demo.ready
  = (inl InvalidSignatureError, Demo.ready).
Proof.
  refine (proj1 (proj2 (proj2 (proj2
            (submitStar_unparsed_timestamp Demo.services Demo.ready 9000 9000
               "alice" "hello" (Demo.sign "hello" "bob") (JStr "Vega")) _))) _).
  - vm_compute. reflexivity.
  - vm_compute. reflexivity.
Defined.

(** ** Properties of the ledger as a whole *)

Section LedgerProperties.

Context (sv : Services).

(** X14.  As the code runs: on a ledger where no block of a height other
    than 0 decodes to [null] or [undefined], [getStarsByWalletAddress]
    resolves, leaves the ledger as it is, and returns the decoded payloads,
    not the blocks, of the blocks of a height other than 0 whose decoded
    [owner] is the address, in chain order; blocks whose body does not
    decode contribute nothing and do not stop the scan. *)
Theorem getStarsByWalletAddress_filters (st : Blockchain) (address : string) :
  forallb canReadProps (decodedRecords sv st) = true ->
  getStarsByWalletAddress sv address st
  = (inr (List.filter (ownedBy address) (decodedRecords sv st)), st).
Proof.
  intros Hread. unfold getStarsByWalletAddress, bind, getChain. cbv iota beta.
  rewrite getStars_loop_run by exact Hread. reflexivity.
Qed.

(** C8.  On every reachable ledger [getChainHeight] resolves with the
    length of the chain minus one and changes nothing; it is -1 on a new
    ledger, 0 once the [initializeChain] that the constructor starts has
    settled, and after every successful [_addBlock] it is the height stored
    in the last block of the chain. *)
Theorem getChainHeight_tracks_chain :
  (forall st : Blockchain,
      reachable sv st ->
      getChainHeight st = (inr (Z.of_nat (length (chain st)) - 1), st))
  /\ getChainHeight newBlockchain = (inr (-1), newBlockchain)
  /\ (forall now : Z,
        getChainHeight (Blockchain_new sv now) = (inr 0, Blockchain_new sv now))
  /\ (forall (st : Blockchain) (now : Z) (block l : loc),
        reachable sv st -> (block < length (heap st))%nat ->
        fst (_addBlock sv now block st) = inr l ->
        let st' := snd (_addBlock sv now block st) in
        exists (h : Z) (lastBlock : loc),
          fst (getChainHeight st') = inr h
          /\ last (chain st') = Some lastBlock
          /\ Block.height (blockAt st' lastBlock) = Some h).
Proof.
  split; [|split; [reflexivity|split]].
  - intros st Hreach. destruct (reachable_wellFormed sv st Hreach) as [Hcache _].
    unfold getChainHeight, getHeight. rewrite Hcache. reflexivity.
  - intros now. reflexivity.
  - intros st now block l Hreach Hlive Hok. cbv zeta.
    destruct (reachable_wellFormed sv st Hreach) as [Hcache Hrefs].
    destruct (addBlock_outcome sv now block st Hcache Hlive) as [Hrun|[e Hrun]];
      rewrite Hrun in Hok |- *; [|discriminate].
    exists (height st + 1), block. cbn [fst snd]. split; [reflexivity|]. split.
    + unfold committed. cbn [chain]. apply last_snoc.
    + unfold blockAt, committed. cbn [heap].
      rewrite deref_insert_eq by exact Hlive. apply stamped_height.
Qed.

(** C9.  [initializeChain] on a ledger whose height is not -1 resolves
    without touching the ledger.  The call that the constructor starts on
    the new ledger settles with one block in the chain: a newly constructed
    block whose body encodes [{data: 'Genesis Block'}], with height 0 and no
    previous hash; the height of the ledger is then 0 and a further call
    changes nothing.  In general a call that finds height -1 constructs a
    genesis block and validates the empty chain at once; when it resumes
    after its [await], on whatever ledger the calls in between have left, it
    appends exactly that one block, still carrying the genesis payload, at
    the end of the chain. *)
Theorem initializeChain_idempotent :
  (forall (st : Blockchain) (now : Z),
      height st <> -1 -> initializeChain sv now st = (inr tt, st))
  /\ (forall now : Z,
        let st' := Blockchain_new sv now in
        fst (initializeChain sv now newBlockchain) = inr tt
        /\ chain st' = [0%nat]
        /\ heap st' = [blockAt st' 0%nat]
        /\ Block.body (blockAt st' 0%nat) = encode sv genesisData
        /\ Block.height (blockAt st' 0%nat) = Some 0
        /\ Block.previousBlockHash (blockAt st' 0%nat) = None
        /\ height st' = 0
        /\ forall now', initializeChain sv now' st' = (inr tt, st'))
  /\ (forall (st : Blockchain) (now : Z),
        cacheAgrees st -> height st = -1 ->
        let genesis := length (heap st) in
        let st1 := snd (Block_new sv genesisData st) in
        validateChain sv st1 = (inr [], st1)
        /\ snd (initializeChain sv now st)
           = snd (_addBlock_resume sv [] now genesis st1)
        /\ forall (st2 : Blockchain) (now2 : Z),
             cacheAgrees st2 -> (genesis < length (heap st2))%nat ->
             Block.body (blockAt st2 genesis) = encode sv genesisData ->
             let st' := snd (_addBlock_resume sv [] now2 genesis st2) in
             fst (_addBlock_resume sv [] now2 genesis st2) = inr genesis
             /\ chain st' = chain st2 ++ [genesis]
             /\ height st' = height st2 + 1
             /\ Block.body (blockAt st' genesis) = encode sv genesisData).
Proof.
  split; [|split].
  - intros st now Hh. unfold initializeChain, bind, getHeight. cbv iota beta.
    apply Z.eqb_neq in Hh. rewrite Hh. reflexivity.
  - intros now. cbv zeta. repeat split.
  - intros st now Hcache Hh. cbv zeta.
    assert (Hempty : chain st = []).
    { unfold cacheAgrees in Hcache. rewrite Hh in Hcache.
      destruct (chain st); [reflexivity | simpl in Hcache; lia]. }
    assert (Hvalid : validateChain sv (snd (Block_new sv genesisData st))
                     = (inr [], snd (Block_new sv genesisData st))).
    { rewrite validateChain_run. unfold Block_new. cbn [snd allocBlock chain].
      rewrite Hempty. reflexivity. }
    split; [exact Hvalid|]. split.
    + rewrite initializeChain_snd, Hh. cbn [Z.eqb Pos.eqb].
      unfold appendNew. unfold bind at 1.
      change (Block_new sv genesisData st)
        with (inr (A := jserror) (length (heap st)), snd (Block_new sv genesisData st)).
      cbv iota beta. rewrite addBlock_split. unfold bind at 1.
      rewrite Hvalid. reflexivity.
    + intros st2 now2 Hcache2 Hlive Hbody.
      rewrite (addBlock_resume_commits sv now2 (length (heap st)) st2 Hlive).
      2:{ unfold cacheAgrees in Hcache2. intros Hpos Hnil.
          rewrite Hnil in Hcache2. simpl in Hcache2. lia. }
      cbn [fst snd]. split; [reflexivity|]. split; [reflexivity|].
      split; [reflexivity|].
      unfold blockAt at 1. unfold committed. cbn [heap].
      rewrite deref_insert_eq by exact Hlive.
      rewrite stamped_body. exact Hbody.
Qed.

(** C2, as amended.  On every ledger produced from a new one by
    [initializeChain] and by successful appends of newly constructed
    blocks, the block at position [i] has height [i], the first block has
    no previous hash, and every later block stores the hash of the block
    before it. *)
Theorem grown_chainInvariant (st : Blockchain) :
  grown sv st -> chainInvariant st.
Proof.
  intros Hgrown.
  assert (H : (cacheAgrees st /\ refsLive st) /\ chainInvariant st).
  { induction Hgrown as [ | now st _ [Hwf Hinv] | now data st l _ [Hwf Hinv] _ ].
    - split; [split; [reflexivity | constructor]|].
      repeat split; intros; discriminate.
    - split; [apply initializeChain_wellFormed, Hwf|].
      rewrite initializeChain_snd. destruct (height st =? -1); [|exact Hinv].
      destruct Hwf. apply appendNew_chainInvariant; assumption.
    - split; [apply appendNew_wellFormed, Hwf|].
      destruct Hwf. apply appendNew_chainInvariant; assumption. }
  exact (proj2 H).
Qed.

End LedgerProperties.

(** C6.  The code departs from the claim on the sample ledger whose chain
    holds, after the genesis block, a star of "alice", a block whose payload
    decodes to [null], and another star of "alice": the [try] around
    [getBData] is meant to skip a bad block, but [body.owner] is read after
    it, the read throws, and the promise is rejected with a [TypeError]
    instead of resolving with the two stars that the address owns. *)
Lemma null_payload_aborts_scan :
  fst (getStarsByWalletAddress Demo.services "alice" Demo.withNull)
  = inl (TypeError "Cannot read properties of null (reading 'owner')")
  /\ List.filter (ownedBy "alice") (decodedRecords Demo.services Demo.withNull)
     = [starData "alice" (JStr "Vega"); starData "alice" (JStr "Rigel")].
Proof. split; vm_compute; reflexivity. Qed.

(** X14 on the sample ledger with three stars. *)
Lemma getStarsByWalletAddress_filters_witness :
  getStarsByWalletAddress Demo.services "alice" Demo.withStars
  = (inr [starData "alice" (JStr "Vega"); starData "alice" (JStr "Rigel")],
     Demo.withStars).
Proof.
  rewrite (getStarsByWalletAddress_filters Demo.services Demo.withStars "alice").
  - vm_compute. reflexivity.
  - vm_compute. reflexivity.
Defined.

(** C8 on the tampered sample ledger, which holds four blocks. *)
Lemma getChainHeight_tracks_chain_witness :
  getChainHeight Demo.tampered = (inr 3, Demo.tampered).
Proof.
  apply (proj1 (getChainHeight_tracks_chain Demo.services) Demo.tampered).
  exact tampered_reachable.
Defined.

(** C9 on the sample ledgers: a further call on the constructed ledger
    changes nothing, and of two calls in flight at once the second, resumed
    after the first, appends its genesis block behind the other. *)
Lemma initializeChain_idempotent_witness :
  initializeChain Demo.services 5000 Demo.ready = (inr tt, Demo.ready)
  /\ chain interleaved = chain held ++ [1%nat].
Proof.
  split.
  - apply (proj1 (initializeChain_idempotent Demo.services) Demo.ready 5000).
    vm_compute. discriminate.
  - refine (proj1 (proj2 (proj2 (proj2 (proj2 (proj2
              (initializeChain_idempotent Demo.services))
              (snd (Block_new Demo.services genesisData newBlockchain)) 1001 _ _))
              held 1001 _ _ _))).
    + reflexivity.
    + reflexivity.
    + reflexivity.
    + vm_compute. lia.
    + reflexivity.
Defined.

(** C2 as stated fails: [_addBlock] accepts the genesis block object a second
    time, writes height 1 into it and pushes it again, so that the block at
    position 0 no longer has height 0. *)
Lemma append_existing_block_breaks_invariant :
  appended Demo.services Demo.aliased
  /\ chain Demo.aliased = [0; 0]%nat
  /\ ~ heightsMatch Demo.aliased
  /\ ~ chainInvariant Demo.aliased.
Proof.
  assert (Hno : ~ heightsMatch Demo.aliased).
  { intros H. specialize (H 0%nat (blockAt Demo.aliased 0%nat) eq_refl).
    vm_compute in H. discriminate. }
  split; [|split; [reflexivity|split; [exact Hno|]]].
  - unfold Demo.aliased, Demo.ready, Demo.run.
    apply appended_addBlock with (l := 0%nat).
    + apply appended_initializeChain, appended_new.
    + vm_compute. constructor.
    + vm_compute. reflexivity.
  - intros [H _]. exact (Hno H).
Qed.

(** C2 as amended, on the sample ledger after one more append. *)
Lemma grown_chainInvariant_witness :
  chainInvariant
    (snd (appendNew Demo.services 3000 (starData "alice" (JStr "Vega")) Demo.ready)).
Proof.
  apply (grown_chainInvariant Demo.services).
  apply grown_appendNew with (l := 1%nat).
  - unfold Demo.ready, Demo.run. apply grown_initializeChain, grown_new.
  - vm_compute. reflexivity.
Defined.

(** ** Ledgers grown from new blocks validate *)

Section Sound.

Context (sv : Services).

Lemma optStrEq_true (a b : option string) : optStrEq a b = true <-> a = b.
Proof.
  destruct a as [x|], b as [y|]; simpl; split; try congruence; try discriminate.
  - intros H. apply String.eqb_eq in H. congruence.
  - intros [= ->]. apply String.eqb_refl.
Qed.

Lemma hashOf_setHash (v : option string) (b : Block.t) :
  hashOf sv (Block.setHash v b) = hashOf sv b.
Proof. reflexivity. Qed.

Lemma stamped_selfConsistent (st : Blockchain) (now : Z) (l : loc) :
  selfConsistent sv (stamped sv st now l) = true.
Proof.
  unfold stamped, selfConsistent. rewrite hashOf_setHash. simpl.
  apply String.eqb_refl.
Qed.

Lemma stamped_time (st : Blockchain) (now : Z) (l : loc) :
  Block.time (stamped sv st now l) = Some (_generateNewTime now).
Proof. reflexivity. Qed.

Lemma appendNew_selfConsistentChain (now : Z) (data : jsval) (st : Blockchain) :
  cacheAgrees st -> refsLive st -> selfConsistentChain sv st ->
  selfConsistentChain sv (snd (appendNew sv now data st)).
Proof.
  intros Hcache Hrefs Hself. unfold selfConsistentChain in *.
  destruct (appendNew_outcome sv now data st Hcache) as [Hok|[e He]].
  - rewrite Hok. cbn [snd]. unfold Block_new.
    rewrite blocks_committed_new by exact Hrefs.
    apply Forall_app. split; [exact Hself|].
    constructor; [apply stamped_selfConsistent | constructor].
  - rewrite He. cbn [snd]. unfold Block_new.
    rewrite blocks_alloc by exact Hrefs. exact Hself.
Qed.

Lemma appendNew_sound (now : Z) (data : jsval) (st : Blockchain) :
  sound sv st -> sound sv (snd (appendNew sv now data st)).
Proof.
  intros (Hcache & Hrefs & Hinv & Hself).
  destruct (appendNew_wellFormed sv now data st (conj Hcache Hrefs)) as [Hc Hr].
  repeat split; try assumption.
  - apply appendNew_chainInvariant; assumption.
  - apply appendNew_chainInvariant; assumption.
  - apply appendNew_chainInvariant; assumption.
  - apply appendNew_selfConsistentChain; assumption.
Qed.

Lemma grown_sound (st : Blockchain) : grown sv st -> sound sv st.
Proof.
  induction 1 as [ | now st _ IH | now data st l _ IH _ ].
  - repeat split; try (intros; discriminate); constructor.
  - rewrite initializeChain_snd. destruct (height st =? -1); [|exact IH].
    apply appendNew_sound, IH.
  - apply appendNew_sound, IH.
Qed.

Lemma sound_lookup (st : Blockchain) (i : nat) (l : loc) :
  sound sv st -> chain st !! i = Some l ->
  Block.height (blockAt st l) = Some (Z.of_nat i)
  /\ selfConsistent sv (blockAt st l) = true.
Proof.
  intros (_ & _ & (Hheights & _ & _) & Hself) Hl.
  assert (Hb : blocks st !! i = Some (blockAt st l)).
  { unfold blocks. rewrite list_lookup_fmap, Hl. reflexivity. }
  split; [apply Hheights, Hb|].
  unfold selfConsistentChain in Hself. rewrite Forall_lookup in Hself.
  apply (Hself i), Hb.
Qed.

Lemma sound_blockReport (st : Blockchain) (i : nat) (l : loc) :
  sound sv st -> chain st !! i = Some l -> blockReport sv st l = inr [].
Proof.
  intros Hsound Hl.
  destruct (sound_lookup st i l Hsound Hl) as [Hh Hself].
  destruct Hsound as (_ & _ & (_ & _ & Hlinked) & _).
  unfold blockReport. rewrite Hh, Hself.
  destruct (0 <? Z.of_nat i) eqn:Hpos; [|reflexivity].
  apply Z.ltb_lt in Hpos.
  destruct i as [|j]; [lia|].
  replace (Z.to_nat (Z.of_nat (S j) - 1)) with j by lia.
  destruct (chain st !! j) as [prev|] eqn:Hprev.
  - assert (Hlink : Block.previousBlockHash (blockAt st l) = Block.hash (blockAt st prev)).
    { apply (Hlinked j); unfold blocks; rewrite list_lookup_fmap.
      - rewrite Hl. reflexivity.
      - rewrite Hprev. reflexivity. }
    rewrite (proj2 (optStrEq_true _ _) Hlink). reflexivity.
  - apply lookup_ge_None in Hprev. apply lookup_lt_Some in Hl. lia.
Qed.

Lemma reports_clean (st : Blockchain) (todo errorLog : list loc) :
  Forall (fun l => blockReport sv st l = inr []) todo ->
  reports sv st todo errorLog = inr errorLog.
Proof.
  intros H. revert errorLog.
  induction H as [|l rest Hl _ IH]; intros errorLog; cbn [reports]; [reflexivity|].
  rewrite Hl, app_nil_r. apply IH.
Qed.

Lemma sound_reports (st : Blockchain) :
  sound sv st -> reports sv st (chain st) [] = inr [].
Proof.
  intros Hsound. apply reports_clean. apply Forall_lookup.
  intros i l Hl. eapply sound_blockReport; eassumption.
Qed.

(** X3.  A ledger built by [initializeChain] and appends of newly
    constructed blocks passes [validateChain] with an empty error list, and
    on such a ledger the append of a new block is never turned away: it
    resolves with the new block and extends the chain by it. *)
Theorem grown_ledger_validates (st : Blockchain) :
  grown sv st ->
  validateChain sv st = (inr [], st)
  /\ forall (now : Z) (data : jsval),
       fst (appendNew sv now data st) = inr (length (heap st))
       /\ chain (snd (appendNew sv now data st)) = chain st ++ [length (heap st)]
       /\ grown sv (snd (appendNew sv now data st)).
Proof.
  intros Hgrown. pose proof (grown_sound st Hgrown) as Hsound.
  pose proof (sound_reports st Hsound) as Hrep.
  split; [rewrite validateChain_run, Hrep; reflexivity|].
  intros now data. destruct Hsound as (Hcache & Hrefs & _).
  pose proof (appendNew_valid_chain sv now data st Hcache Hrefs Hrep) as Hrun.
  split; [rewrite Hrun; reflexivity|]. split; [rewrite Hrun; reflexivity|].
  apply grown_appendNew with (l := length (heap st)); [exact Hgrown|].
  rewrite Hrun. reflexivity.
Qed.

End Sound.

(** ** Lookups, and the tampering hook *)

Section Lookups.

Context (sv : Services).

Lemma chainFind_run (pred : Block.t -> bool) (todo : list loc) (st : Blockchain) :
  chainFind pred todo st = (inr (List.find (fun l => pred (blockAt st l)) todo), st).
Proof.
  induction todo as [|l rest IH]; simpl; [reflexivity|].
  unfold bind, readBlock, ret; simpl.
  destruct (pred (blockAt st l)); [reflexivity | exact IH].
Qed.

Lemma heightsMatch_lookup (st : Blockchain) (i : nat) (l : loc) :
  heightsMatch st -> chain st !! i = Some l ->
  Block.height (blockAt st l) = Some (Z.of_nat i).
Proof.
  intros Hh Hl. apply Hh. unfold blocks. rewrite list_lookup_fmap, Hl. reflexivity.
Qed.

Lemma find_by_position (st : Blockchain) (h : Z) (todo : list loc) (k : nat) :
  (forall i l, todo !! i = Some l ->
     Block.height (blockAt st l) = Some (Z.of_nat (k + i))) ->
  List.find (fun l => heightIs (blockAt st l) h) todo
  = if Z.of_nat k <=? h then todo !! (Z.to_nat h - k)%nat else None.
Proof.
  revert k. induction todo as [|l rest IH]; intros k Hpos; simpl.
  - destruct (Z.of_nat k <=? h); reflexivity.
  - unfold heightIs at 1. rewrite (Hpos 0%nat l eq_refl).
    replace (k + 0)%nat with k by lia.
    destruct (Z.eqb_spec (Z.of_nat k) h) as [Heq|Hne].
    + subst h. rewrite Z.leb_refl.
      replace (Z.to_nat (Z.of_nat k) - k)%nat with 0%nat by lia. reflexivity.
    + rewrite (IH (S k)).
      2:{ intros i l' Hl'. rewrite (Hpos (S i) l' Hl'). f_equal. lia. }
      destruct (Z.leb_spec (Z.of_nat k) h) as [Hle|Hgt].
      * destruct (Z.leb_spec (Z.of_nat (S k)) h) as [_|Hlt]; [|lia].
        replace (Z.to_nat h - k)%nat with (S (Z.to_nat h - S k)) by lia. reflexivity.
      * destruct (Z.leb_spec (Z.of_nat (S k)) h) as [Hle|_]; [lia | reflexivity].
Qed.

Lemma getBlockByHeight_run (st : Blockchain) (h : Z) :
  heightsMatch st ->
  getBlockByHeight h st
  = (inr (if 0 <=? h then chain st !! Z.to_nat h else None), st).
Proof.
  intros Hh. unfold getBlockByHeight, bind, getChain. cbv iota beta.
  rewrite chainFind_run. f_equal. f_equal.
  rewrite (find_by_position st h (chain st) 0).
  - change (Z.of_nat 0) with 0. replace (Z.to_nat h - 0)%nat with (Z.to_nat h) by lia.
    reflexivity.
  - intros i l Hl. apply heightsMatch_lookup; assumption.
Qed.

(** X1.  On a ledger where every block's height is its position in the
    chain, [getBlockByHeight] resolves with the block at that position and
    with [undefined] for a negative height or one past the end; the ledger
    is left as it is. *)
Theorem getBlockByHeight_is_indexing (st : Blockchain) (h : Z) :
  heightsMatch st ->
  getBlockByHeight h st
  = (inr (if 0 <=? h then chain st !! Z.to_nat h else None), st)
  /\ (h < 0 \/ Z.of_nat (length (chain st)) <= h ->
      fst (getBlockByHeight h st) = inr None).
Proof.
  intros Hh. rewrite (getBlockByHeight_run st h Hh). split; [reflexivity|].
  intros [Hneg|Hbig]; cbn [fst].
  - destruct (Z.leb_spec 0 h); [lia | reflexivity].
  - destruct (0 <=? h); [|reflexivity].
    f_equal. apply lookup_ge_None. lia.
Qed.

(** X2.  [getBlockByHash] never rejects.  It resolves with the first block
    in chain order whose stored hash is the argument, and with [undefined]
    exactly when no block of the chain stores that hash. *)
Theorem getBlockByHash_finds_first (st : Blockchain) (hash : string) :
  (exists found, fst (getBlockByHash hash st) = inr found)
  /\ (forall l, fst (getBlockByHash hash st) = inr (Some l) ->
        exists i, chain st !! i = Some l
          /\ Block.hash (blockAt st l) = Some hash
          /\ forall j l', (j < i)%nat -> chain st !! j = Some l' ->
               Block.hash (blockAt st l') <> Some hash)
  /\ (fst (getBlockByHash hash st) = inr None <->
      forall i l, chain st !! i = Some l -> Block.hash (blockAt st l) <> Some hash).
Proof.
  unfold getBlockByHash, bind, getChain. cbv iota beta.
  rewrite chainFind_run. cbn [fst].
  set (p := fun l => optStrEq (Block.hash (blockAt st l)) (Some hash)).
  assert (Hp : forall l, p l = true <-> Block.hash (blockAt st l) = Some hash)
    by (intros l; apply optStrEq_true).
  split; [eexists; reflexivity|].
  generalize (chain st) as todo. intros todo. split.
  - induction todo as [|x rest IH]; simpl; [discriminate|].
    intros l Hfound. destruct (p x) eqn:Hx.
    + injection Hfound as <-. exists 0%nat. split; [reflexivity|].
      split; [apply Hp, Hx|]. intros j l' Hj. lia.
    + destruct (IH l Hfound) as (i & Hi & Hhash & Hfirst).
      exists (S i). split; [exact Hi|]. split; [exact Hhash|].
      intros [|j] l' Hj Hl'.
      * simpl in Hl'. injection Hl' as <-. intros Hc. apply Hp in Hc. congruence.
      * apply (Hfirst j l'); [lia | exact Hl'].
  - induction todo as [|x rest IH]; simpl.
    + split; [intros _ i l Hl; discriminate | reflexivity].
    + destruct (p x) eqn:Hx.
      * split; [discriminate|]. intros Hnone. exfalso.
        apply (Hnone 0%nat x eq_refl). apply Hp, Hx.
      * rewrite IH. split.
        -- intros Hnone [|i] l Hl.
           ++ simpl in Hl. injection Hl as <-. intros Hc. apply Hp in Hc. congruence.
           ++ apply (Hnone i l Hl).
        -- intros Hnone i l Hl. apply (Hnone (S i) l Hl).
Qed.

End Lookups.

Section Tamper.

Context (sv : Services).

Lemma heightsMatch_distinct (st : Blockchain) (i j : nat) (l : loc) :
  heightsMatch st -> chain st !! i = Some l -> chain st !! j = Some l -> i = j.
Proof.
  intros Hh Hi Hj.
  pose proof (heightsMatch_lookup st i l Hh Hi) as H1.
  pose proof (heightsMatch_lookup st j l Hh Hj) as H2.
  rewrite H1 in H2. injection H2. lia.
Qed.

Lemma tamper_run (st : Blockchain) (h : Z) :
  heightsMatch st ->
  tamperWithBlockByHeight h st
  = match (if 0 <=? h then chain st !! Z.to_nat h else None) with
    | Some l =>
        (inr (Some l),
         mkBlockchain
           (<[l := Block.setHash (Some (tamperedHash h)) (blockAt st l)]> (heap st))
           (chain st) (height st))
    | None => (inr None, st)
    end.
Proof.
  intros Hh. unfold tamperWithBlockByHeight, bind.
  rewrite (getBlockByHeight_run st h Hh).
  destruct (if 0 <=? h then chain st !! Z.to_nat h else None) as [l|]; reflexivity.
Qed.

Lemma blocks_after_write (st : Blockchain) (n : nat) (l : loc) (x : Block.t) :
  heightsMatch st -> refsLive st -> chain st !! n = Some l ->
  blocks (mkBlockchain (<[l := x]> (heap st)) (chain st) (height st))
  = <[n := x]> (blocks st).
Proof.
  intros Hh Hrefs Hl.
  assert (Hlive : (l < length (heap st))%nat).
  { unfold refsLive in Hrefs. rewrite Forall_lookup in Hrefs. apply (Hrefs n l Hl). }
  apply list_eq. intros j. unfold blocks. cbn [chain heap].
  destruct (decide (j = n)) as [->|Hne].
  - rewrite list_lookup_insert_eq.
    2:{ rewrite length_map. apply lookup_lt_Some in Hl. exact Hl. }
    rewrite list_lookup_fmap, Hl. cbn. f_equal.
    unfold blockAt. cbn [heap]. apply deref_insert_eq, Hlive.
  - rewrite list_lookup_insert_ne by congruence.
    rewrite !list_lookup_fmap.
    destruct (chain st !! j) as [l'|] eqn:Hj; [|reflexivity].
    cbn. f_equal. unfold blockAt. cbn [heap]. apply deref_insert_ne.
    intros ->. apply Hne. eapply heightsMatch_distinct; eassumption.
Qed.

(** X4.  On a ledger where every block's height is its position,
    [tamperWithBlockByHeight] at the height of a block resolves with that
    block after overwriting its stored hash with "123" followed by the
    height: the chain, the cached height and every field of every other
    block are as before.  At a height that no block has it resolves with
    [undefined] and changes nothing. *)
Theorem tamper_overwrites_one_hash (st : Blockchain) (h : Z) :
  heightsMatch st -> refsLive st ->
  (forall l, 0 <= h -> chain st !! Z.to_nat h = Some l ->
     let st' := snd (tamperWithBlockByHeight h st) in
     fst (tamperWithBlockByHeight h st) = inr (Some l)
     /\ chain st' = chain st /\ height st' = height st
     /\ blocks st'
        = <[Z.to_nat h := Block.setHash (Some (tamperedHash h)) (blockAt st l)]> (blocks st))
  /\ (h < 0 \/ Z.of_nat (length (chain st)) <= h ->
      tamperWithBlockByHeight h st = (inr None, st)).
Proof.
  intros Hh Hrefs. rewrite (tamper_run st h Hh). split.
  - intros l Hpos Hl. cbv zeta.
    destruct (Z.leb_spec 0 h); [|lia]. rewrite Hl. cbn [fst snd].
    split; [reflexivity|]. split; [reflexivity|]. split; [reflexivity|].
    apply blocks_after_write; assumption.
  - intros [Hneg|Hbig].
    + destruct (Z.leb_spec 0 h); [lia | reflexivity].
    + destruct (0 <=? h); [|reflexivity].
      rewrite (proj2 (lookup_ge_None (chain st) (Z.to_nat h))) by lia. reflexivity.
Qed.

End Tamper.

Section Detection.

Context (sv : Services).

Lemma reports_app (st : Blockchain) (xs ys errorLog : list loc) :
  reports sv st (xs ++ ys) errorLog
  = match reports sv st xs errorLog with
    | inl e => inl e
    | inr r => reports sv st ys r
    end.
Proof.
  revert errorLog. induction xs as [|x xs IH]; intros errorLog; cbn [reports app];
    [reflexivity|].
  destruct (blockReport sv st x); [reflexivity | apply IH].
Qed.

Lemma reports_marked (st : Blockchain) (todo errorLog : list loc) :
  Forall (fun l => blockReport sv st l = inr [l]) todo ->
  reports sv st todo errorLog = inr (errorLog ++ todo).
Proof.
  intros H. revert errorLog.
  induction H as [|l rest Hl _ IH]; intros errorLog; cbn [reports].
  - rewrite app_nil_r. reflexivity.
  - rewrite Hl, IH, <- app_assoc. reflexivity.
Qed.

Lemma blockAt_after_write (st : Blockchain) (n i : nat) (l li : loc) (x : Block.t) :
  heightsMatch st -> refsLive st ->
  chain st !! n = Some l -> chain st !! i = Some li ->
  blockAt (mkBlockchain (<[l := x]> (heap st)) (chain st) (height st)) li
  = if decide (i = n) then x else blockAt st li.
Proof.
  intros Hh Hrefs Hl Hli. unfold blockAt. cbn [heap].
  destruct (decide (i = n)) as [->|Hne].
  - assert (li = l) by congruence. subst li. apply deref_insert_eq.
    unfold refsLive in Hrefs. rewrite Forall_lookup in Hrefs. apply (Hrefs n l Hl).
  - apply deref_insert_ne. intros ->. apply Hne.
    eapply heightsMatch_distinct; eassumption.
Qed.

Lemma tampered_blockReport (st : Blockchain) (h : Z) (l : loc) (i : nat) (li : loc) :
  sound sv st -> 0 <= h ->
  chain st !! Z.to_nat h = Some l ->
  hashOf sv (blockAt st l) <> tamperedHash h ->
  chain st !! i = Some li ->
  blockReport sv
    (mkBlockchain
       (<[l := Block.setHash (Some (tamperedHash h)) (blockAt st l)]> (heap st))
       (chain st) (height st)) li
  = inr (if decide (i = Z.to_nat h \/ i = S (Z.to_nat h)) then [li] else []).
Proof.
  intros Hsound Hpos Hl Hfresh Hli.
  set (n := Z.to_nat h) in *.
  set (x := Block.setHash (Some (tamperedHash h)) (blockAt st l)).
  pose proof Hsound as (_ & Hrefs & (Hheights & _ & Hlinked) & _).
  destruct (sound_lookup sv st n l Hsound Hl) as [Hhl Hselfl].
  destruct (sound_lookup sv st i li Hsound Hli) as [Hhi Hselfi].
  assert (Hstored : Block.hash (blockAt st l) = Some (hashOf sv (blockAt st l)))
    by (apply optStrEq_true; exact Hselfl).
  assert (Hxself : selfConsistent sv x = false).
  { unfold selfConsistent, x. rewrite hashOf_setHash.
    cbn [Block.setHash Block.hash optStrEq].
    apply String.eqb_neq. congruence. }
  unfold blockReport. cbn [chain].
  rewrite (blockAt_after_write st n i l li x Hheights Hrefs Hl Hli).
  assert (Hheight : Block.height (if decide (i = n) then x else blockAt st li)
                    = Some (Z.of_nat i)).
  { destruct (decide (i = n)) as [->|_]; [exact Hhl | exact Hhi]. }
  rewrite Hheight.
  destruct i as [|j].
  - (* the first block has no predecessor *)
    simpl (0 <? _).
    destruct (decide (0%nat = n)) as [<-|Hne].
    + rewrite Hxself. rewrite decide_True by (left; reflexivity). reflexivity.
    + rewrite Hselfi. rewrite decide_False by lia. reflexivity.
  - replace (0 <? Z.of_nat (S j)) with true by (symmetry; apply Z.ltb_lt; lia).
    replace (Z.to_nat (Z.of_nat (S j) - 1)) with j by lia.
    destruct (chain st !! j) as [prev|] eqn:Hprev.
    2:{ apply lookup_ge_None in Hprev. apply lookup_lt_Some in Hli. lia. }
    rewrite (blockAt_after_write st n j l prev x Hheights Hrefs Hl Hprev).
    assert (Hlink : Block.previousBlockHash (blockAt st li) = Block.hash (blockAt st prev)).
    { apply (Hlinked j); unfold blocks; rewrite list_lookup_fmap.
      - rewrite Hli. reflexivity.
      - rewrite Hprev. reflexivity. }
    destruct (decide (S j = n)) as [Hn|Hn].
    + (* the tampered block itself *)
      assert (li = l) by congruence. subst li.
      rewrite Hxself. rewrite decide_False by lia.
      unfold x at 1. cbn [Block.setHash Block.previousBlockHash].
      rewrite (proj2 (optStrEq_true _ _) Hlink).
      rewrite decide_True by (left; exact Hn). reflexivity.
    + rewrite Hselfi. destruct (decide (j = n)) as [Hj|Hj].
      * (* its successor *)
        assert (prev = l) by congruence. subst prev.
        rewrite Hlink, Hstored. unfold x. cbn [Block.setHash Block.hash optStrEq].
        rewrite (proj2 (String.eqb_neq _ _) Hfresh).
        rewrite decide_True by (right; congruence). reflexivity.
      * rewrite (proj2 (optStrEq_true _ _) Hlink).
        rewrite decide_False by lia. reflexivity.
Qed.

(** X5.  On a ledger built by [initializeChain] and appends of newly
    constructed blocks, overwriting the hash of the block at height [h] with
    the tampering hook is detected, provided the hook's hash is not the
    block's true hash: [validateChain] then reports exactly that block and,
    when there is one, the block after it, in this order, and [_addBlock]
    turns every block away with "Blockchain is not valid". *)
Theorem tampering_is_detected (st : Blockchain) (h : Z) (l : loc) :
  grown sv st -> 0 <= h ->
  chain st !! Z.to_nat h = Some l ->
  hashOf sv (blockAt st l) <> tamperedHash h ->
  let st' := snd (tamperWithBlockByHeight h st) in
  validateChain sv st' = (inr (take 2 (drop (Z.to_nat h) (chain st))), st')
  /\ forall (now : Z) (block : loc),
       _addBlock sv now block st' = (inl ChainInvalidError, st').
Proof.
  intros Hgrown Hpos Hl Hfresh. cbv zeta.
  pose proof (grown_sound sv st Hgrown) as Hsound.
  pose proof Hsound as (_ & _ & (Hheights & _) & _).
  rewrite (tamper_run st h Hheights).
  destruct (Z.leb_spec 0 h); [|lia]. rewrite Hl. cbn [snd].
  set (st' := mkBlockchain _ (chain st) (height st)).
  set (n := Z.to_nat h) in *.
  assert (Hrep : reports sv st' (chain st) [] = inr (take 2 (drop n (chain st)))).
  { replace (reports sv st' (chain st) [])
      with (reports sv st'
              (take n (chain st) ++ take 2 (drop n (chain st))
                 ++ drop 2 (drop n (chain st))) [])
      by (rewrite !take_drop; reflexivity).
    rewrite reports_app.
    rewrite (reports_clean sv st' (take n (chain st))).
    2:{ apply Forall_lookup. intros i li Hi.
        apply lookup_take_Some in Hi as [Hi Hlt].
        unfold st'. rewrite (tampered_blockReport st h l i li) by assumption.
        fold n. rewrite decide_False by lia. reflexivity. }
    rewrite reports_app.
    rewrite (reports_marked st' (take 2 (drop n (chain st)))).
    2:{ apply Forall_lookup. intros i li Hi.
        apply lookup_take_Some in Hi as [Hi Hlt]. rewrite lookup_drop in Hi.
        unfold st'. rewrite (tampered_blockReport st h l (n + i) li) by assumption.
        fold n. rewrite decide_True by lia. reflexivity. }
    rewrite reports_clean; [reflexivity|].
    apply Forall_lookup. intros i li Hi. rewrite !lookup_drop in Hi.
    unfold st'. rewrite (tampered_blockReport st h l (n + (2 + i)) li) by assumption.
    fold n. rewrite decide_False by lia. reflexivity. }
  split.
  - rewrite validateChain_run. change (chain st') with (chain st).
    rewrite Hrep. reflexivity.
  - intros now block.
    apply (addBlock_guard_closed sv now block st' (take 2 (drop n (chain st)))).
    + exact Hrep.
    + rewrite (drop_S _ l n Hl). discriminate.
Qed.

End Detection.

(** ** Challenges as issued *)

Section Challenge.

Lemma parseDigits_of_uint_acc (d : Decimal.uint) (acc : positive) :
  parseDigits 10 (NilEmpty.string_of_uint d) (Some (Z.pos acc))
  = Some (Z.pos (Pos.of_uint_acc d acc)).
Proof.
  revert acc. induction d; intros acc; cbn [NilEmpty.string_of_uint parseDigits];
    try reflexivity;
    (change (digitValue 10 _) with (Some 0) || change (digitValue 10 _) with (Some 1)
     || change (digitValue 10 _) with (Some 2) || change (digitValue 10 _) with (Some 3)
     || change (digitValue 10 _) with (Some 4) || change (digitValue 10 _) with (Some 5)
     || change (digitValue 10 _) with (Some 6) || change (digitValue 10 _) with (Some 7)
     || change (digitValue 10 _) with (Some 8) || change (digitValue 10 _) with (Some 9));
    cbn [default from_option Pos.of_uint_acc]; rewrite <- IHd; repeat f_equal; unfold id; try lia.
Qed.

Lemma parseDigits_of_uint (d : Decimal.uint) :
  d <> Decimal.Nil ->
  parseDigits 10 (NilEmpty.string_of_uint d) None = Some (Z.of_uint d).
Proof.
  assert (Hzero : forall d', parseDigits 10 (NilEmpty.string_of_uint d') (Some 0)
                             = Some (Z.of_uint d')).
  { induction d'; cbn [NilEmpty.string_of_uint parseDigits]; try reflexivity.
    - exact IHd'.
    - apply (parseDigits_of_uint_acc d' 1).
    - apply (parseDigits_of_uint_acc d' 2).
    - apply (parseDigits_of_uint_acc d' 3).
    - apply (parseDigits_of_uint_acc d' 4).
    - apply (parseDigits_of_uint_acc d' 5).
    - apply (parseDigits_of_uint_acc d' 6).
    - apply (parseDigits_of_uint_acc d' 7).
    - apply (parseDigits_of_uint_acc d' 8).
    - apply (parseDigits_of_uint_acc d' 9). }
  intros Hd. rewrite <- Hzero. destruct d; [congruence | reflexivity ..].
Qed.

Lemma string_of_uint_plain (d : Decimal.uint) :
  d <> Decimal.Nil ->
  trimStart (NilEmpty.string_of_uint d) = NilEmpty.string_of_uint d
  /\ stripSign (NilEmpty.string_of_uint d) = (1, NilEmpty.string_of_uint d)
  /\ stripRadix (NilEmpty.string_of_uint d) = (10, NilEmpty.string_of_uint d).
Proof.
  intros Hd. destruct d as [|d|d|d|d|d|d|d|d|d|d]; [congruence | ..];
    (split; [reflexivity | split; [reflexivity|]]); try reflexivity.
  destruct d; reflexivity.
Qed.

Lemma parseInt_string_of_uint (d : Decimal.uint) :
  d <> Decimal.Nil ->
  parseInt (NilEmpty.string_of_uint d) = Some (Z.of_uint d).
Proof.
  intros Hd. destruct (string_of_uint_plain d Hd) as (Htrim & Hsign & Hradix).
  unfold parseInt. rewrite Htrim, Hsign, Hradix.
  rewrite (parseDigits_of_uint d Hd). rewrite Z.mul_1_l. reflexivity.
Qed.

(** [parseInt(String(n))] is [n]. *)
Lemma parseInt_toString (n : Z) : parseInt (toString n) = Some n.
Proof.
  destruct n as [|p|p]; [reflexivity | |].
  - unfold toString. cbn [Z.to_int NilZero.string_of_int NilZero.string_of_uint].
    pose proof (DecimalPos.Unsigned.to_uint_nonnil p) as Hnil.
    replace (NilZero.string_of_uint (Pos.to_uint p))
      with (NilEmpty.string_of_uint (Pos.to_uint p))
      by (unfold NilZero.string_of_uint; destruct (Pos.to_uint p); congruence).
    rewrite (parseInt_string_of_uint _ Hnil).
    unfold Z.of_uint. rewrite DecimalPos.Unsigned.of_to. reflexivity.
  - unfold toString. cbn [Z.to_int NilZero.string_of_int].
    pose proof (DecimalPos.Unsigned.to_uint_nonnil p) as Hnil.
    replace (NilZero.string_of_uint (Pos.to_uint p))
      with (NilEmpty.string_of_uint (Pos.to_uint p))
      by (unfold NilZero.string_of_uint; destruct (Pos.to_uint p); congruence).
    destruct (string_of_uint_plain _ Hnil) as (_ & _ & Hradix).
    unfold parseInt.
    change (trimStart (String "-" ?s)) with (String "-" s).
    cbn [stripSign]. rewrite Hradix.
    rewrite (parseDigits_of_uint _ Hnil).
    unfold Z.of_uint. rewrite DecimalPos.Unsigned.of_to. reflexivity.
Qed.

Lemma string_of_uint_noColon (d : Decimal.uint) :
  noColon (NilEmpty.string_of_uint d) = true.
Proof. induction d; cbn [NilEmpty.string_of_uint noColon]; try reflexivity; exact IHd. Qed.

Lemma toString_noColon (n : Z) : noColon (toString n) = true.
Proof.
  assert (H : forall d, noColon (NilZero.string_of_uint d) = true).
  { intros d. unfold NilZero.string_of_uint.
    destruct d; try reflexivity; apply (string_of_uint_noColon (_ d)). }
  unfold toString. destruct (Z.to_int n) as [d|d]; cbn [NilZero.string_of_int noColon].
  - apply H.
  - rewrite H. reflexivity.
Qed.

Lemma splitOn_field (a rest : string) :
  noColon a = true ->
  splitOn ":"%char (a ++ String ":"%char rest) = a :: splitOn ":"%char rest.
Proof.
  induction a as [|c a IH]; intros Ha; [reflexivity|].
  cbn [noColon] in Ha. apply andb_true_iff in Ha as [Hc Ha].
  cbn [append splitOn]. apply negb_true_iff in Hc. rewrite Hc.
  rewrite (IH Ha). reflexivity.
Qed.

Lemma issuedMessage_time (now : Z) (address : string) :
  noColon address = true ->
  messageTime (issuedMessage now address) = Some now.
Proof.
  intros Ha. unfold messageTime, issuedMessage, _generateNewTime.
  change (":" ++ ?s)%string with (String ":"%char s).
  rewrite (splitOn_field address _ Ha).
  change (":starRegistry")%string with (String ":"%char "starRegistry").
  rewrite (splitOn_field (toString now) _ (toString_noColon now)).
  cbn [lookup list_lookup default from_option]. apply parseInt_toString.
Qed.

(** X6.  The message that [requestMessageOwnershipVerification] issues at
    clock reading [now] for an address without a colon carries [now] as its
    timestamp: [submitStar] reads back exactly [now], counts the challenge
    as expired from 300000 milliseconds after it was issued, and before that
    goes on to the signature check. *)
Theorem issued_challenge_round_trip (sv : Services) (st : Blockchain)
    (now now' commitTime : Z) (address signature : string) (star : jsval) :
  noColon address = true ->
  0 <= now <= MAX_TIME_VALUE ->
  let message := issuedMessage now address in
  requestMessageOwnershipVerification now address st = (inr message, st)
  /\ mMessageTime message = Some now
  /\ (FIVE_MINUTES_IN_SECONDS * 1000 <= now' - now ->
      submitStar sv now' commitTime address message signature star st
      = (inl ExpiredChallengeError, st))
  /\ (now' - now < FIVE_MINUTES_IN_SECONDS * 1000 ->
      submitStar sv now' commitTime address message signature star st
      = verifyAndAppend sv commitTime address message signature star st).
Proof.
  intros Ha Hnow. cbv zeta.
  assert (Hm : mMessageTime (issuedMessage now address) = Some now).
  { unfold mMessageTime. rewrite (issuedMessage_time now address Ha).
    unfold moment. destruct (Z.leb_spec (Z.abs now) MAX_TIME_VALUE) as [_|Hgt];
      [reflexivity | lia]. }
  unfold FIVE_MINUTES_IN_SECONDS.
  split; [reflexivity|]. split; [exact Hm|]. split.
  - intros Hold. unfold submitStar. rewrite (expired_iff now' now _ Hm).
    destruct (Z.leb_spec (300 * 1000) (now' - now)); [reflexivity | lia].
  - intros Hfresh. unfold submitStar. rewrite (expired_iff now' now _ Hm).
    destruct (Z.leb_spec (300 * 1000) (now' - now)); [lia | reflexivity].
Qed.

End Challenge.

(** ** Rejections, growth of the chain, and lookups after an append *)

Section Growth.

Context (sv : Services).

Lemma submitStar_resolved (now commitTime : Z) (address message signature : string)
    (star : jsval) (st : Blockchain) (l : loc) :
  fst (submitStar sv now commitTime address message signature star st) = inr l ->
  submitStar sv now commitTime address message signature star st
  = appendNew sv commitTime (starData address star) st.
Proof.
  unfold submitStar. destruct (numGe _ _); [discriminate|].
  destruct (verify sv message address signature) as [e|[|]] eqn:Hv.
  - rewrite (verifyAndAppend_throws sv _ _ _ _ _ _ _ Hv). discriminate.
  - intros _. apply verifyAndAppend_valid, Hv.
  - rewrite (verifyAndAppend_invalid sv _ _ _ _ _ _ Hv). discriminate.
Qed.

Lemma submitStar_rejected (now commitTime : Z) (address message signature : string)
    (star : jsval) (st : Blockchain) (e : jserror) :
  cacheAgrees st ->
  fst (submitStar sv now commitTime address message signature star st) = inl e ->
  snd (submitStar sv now commitTime address message signature star st) = st
  \/ snd (submitStar sv now commitTime address message signature star st)
     = snd (Block_new sv (starData address star) st).
Proof.
  intros Hcache. unfold submitStar. destruct (numGe _ _); [left; reflexivity|].
  destruct (verify sv message address signature) as [e'|[|]] eqn:Hv.
  - rewrite (verifyAndAppend_throws sv _ _ _ _ _ _ _ Hv). left. reflexivity.
  - rewrite (verifyAndAppend_valid sv _ _ _ _ _ _ Hv).
    destruct (appendNew_outcome sv commitTime (starData address star) st Hcache)
      as [Hok|[e' He]].
    + rewrite Hok. discriminate.
    + rewrite He. right. reflexivity.
  - rewrite (verifyAndAppend_invalid sv _ _ _ _ _ _ Hv). left. reflexivity.
Qed.

(** X7.  On a reachable ledger a rejected call changes nothing that is
    committed: a rejected [_addBlock] returns the ledger as it was, and a
    rejected [submitStar], whatever the reason, leaves the chain, every
    block of it and the cached height as they were. *)
Theorem rejection_changes_nothing (st : Blockchain) :
  reachable sv st ->
  (forall (now : Z) (block : loc) (e : jserror),
     (block < length (heap st))%nat ->
     fst (_addBlock sv now block st) = inl e ->
     snd (_addBlock sv now block st) = st)
  /\ (forall (now commitTime : Z) (address message signature : string)
        (star : jsval) (e : jserror),
        fst (submitStar sv now commitTime address message signature star st) = inl e ->
        let st' := snd (submitStar sv now commitTime address message signature star st) in
        chain st' = chain st /\ blocks st' = blocks st /\ height st' = height st).
Proof.
  intros Hreach. destruct (reachable_wellFormed sv st Hreach) as [Hcache Hrefs]. split.
  - intros now block e Hlive Hrej.
    destruct (addBlock_outcome sv now block st Hcache Hlive) as [Hok|[e' He]].
    + rewrite Hok in Hrej. discriminate.
    + rewrite He. reflexivity.
  - intros now commitTime address message signature star e Hrej. cbv zeta.
    destruct (submitStar_rejected _ _ _ _ _ _ st e Hcache Hrej) as [-> | ->].
    + repeat split.
    + split; [reflexivity|]. split; [|reflexivity].
      apply blocks_alloc, Hrefs.
Qed.

Lemma tamper_chain (h : Z) (st : Blockchain) :
  chain (snd (tamperWithBlockByHeight h st)) = chain st
  /\ height (snd (tamperWithBlockByHeight h st)) = height st.
Proof.
  unfold tamperWithBlockByHeight, getBlockByHeight, bind, getChain. cbv iota beta.
  rewrite chainFind_run.
  destruct (List.find _ (chain st)); split; reflexivity.
Qed.

(** X8.  The chain is append-only.  On a reachable ledger each of
    [initializeChain], [_addBlock], [submitStar] and
    [tamperWithBlockByHeight] leaves the references already in the chain in
    place and adds at most one at the end, the cached height growing by the
    number added; the tampering hook adds none. *)
Theorem chain_is_append_only (st : Blockchain) :
  reachable sv st ->
  let grows (st' : Blockchain) :=
    exists suffix : list loc,
      chain st' = chain st ++ suffix
      /\ (length suffix <= 1)%nat
      /\ height st' = height st + Z.of_nat (length suffix) in
  (forall now, grows (snd (initializeChain sv now st)))
  /\ (forall now block, (block < length (heap st))%nat ->
        grows (snd (_addBlock sv now block st)))
  /\ (forall now commitTime address message signature star,
        grows (snd (submitStar sv now commitTime address message signature star st)))
  /\ (forall h, chain (snd (tamperWithBlockByHeight h st)) = chain st
                /\ height (snd (tamperWithBlockByHeight h st)) = height st).
Proof.
  intros Hreach grows.
  destruct (reachable_wellFormed sv st Hreach) as [Hcache Hrefs].
  assert (Hsame : forall st', chain st' = chain st -> height st' = height st -> grows st').
  { intros st' Hc Hh. exists []. rewrite app_nil_r, Hc, Hh. simpl.
    split; [reflexivity|]. split; lia. }
  assert (Hnew : forall now data, grows (snd (appendNew sv now data st))).
  { intros now data.
    destruct (appendNew_outcome sv now data st Hcache) as [Hok|[e He]].
    - rewrite Hok. exists [length (heap st)]. simpl. split; [reflexivity|]. split; lia.
    - rewrite He. apply Hsame; reflexivity. }
  split; [|split; [|split]].
  - intros now. rewrite initializeChain_snd.
    destruct (height st =? -1); [apply Hnew | apply Hsame; reflexivity].
  - intros now block Hlive.
    destruct (addBlock_outcome sv now block st Hcache Hlive) as [Hok|[e He]].
    + rewrite Hok. exists [block]. simpl. split; [reflexivity|]. split; lia.
    + rewrite He. apply Hsame; reflexivity.
  - intros now commitTime address message signature star.
    destruct (fst (submitStar sv now commitTime address message signature star st))
      as [e|l] eqn:Hres.
    + destruct (submitStar_rejected _ _ _ _ _ _ st e Hcache Hres) as [-> | ->];
        apply Hsame; reflexivity.
    + rewrite (submitStar_resolved _ _ _ _ _ _ st l Hres). apply Hnew.
  - intros h. apply tamper_chain.
Qed.

Lemma submitStar_grown (now commitTime : Z) (address message signature : string)
    (star : jsval) (st : Blockchain) (l : loc) :
  grown sv st ->
  fst (submitStar sv now commitTime address message signature star st) = inr l ->
  grown sv (snd (submitStar sv now commitTime address message signature star st)).
Proof.
  intros Hgrown Hres. pose proof Hres as Hres'.
  rewrite (submitStar_resolved _ _ _ _ _ _ st l Hres) in Hres' |- *.
  eapply grown_appendNew; eassumption.
Qed.

(** X9.  After [submitStar] has resolved on a ledger built by
    [initializeChain] and appends of newly constructed blocks,
    [getBlockByHeight] at the new height resolves with the block just
    committed, and at every earlier height with the block it resolved with
    before. *)
Theorem committed_block_is_found (st : Blockchain) (now commitTime : Z)
    (address message signature : string) (star : jsval) (l : loc) :
  grown sv st ->
  fst (submitStar sv now commitTime address message signature star st) = inr l ->
  let st' := snd (submitStar sv now commitTime address message signature star st) in
  getBlockByHeight (height st + 1) st' = (inr (Some l), st')
  /\ forall h, h <= height st ->
       fst (getBlockByHeight h st') = fst (getBlockByHeight h st).
Proof.
  intros Hgrown Hres. cbv zeta.
  pose proof (submitStar_grown _ _ _ _ _ _ st l Hgrown Hres) as Hgrown'.
  pose proof (grown_sound sv st Hgrown) as (Hcache & Hrefs & (Hh & _) & _).
  pose proof (grown_sound sv _ Hgrown') as (_ & _ & (Hh' & _) & _).
  pose proof Hres as Hres'.
  rewrite (submitStar_resolved _ _ _ _ _ _ st l Hres) in Hres', Hh' |- *.
  pose proof (appendNew_valid_chain sv commitTime (starData address star) st Hcache Hrefs
                (sound_reports sv st (grown_sound sv st Hgrown))) as Hrun.
  rewrite Hrun in Hres', Hh' |- *. cbn [fst snd] in *. injection Hres' as <-.
  set (st' := committed sv _ commitTime (length (heap st))) in *.
  assert (Hchain : chain st' = chain st ++ [length (heap st)]) by reflexivity.
  unfold cacheAgrees in Hcache.
  rewrite (getBlockByHeight_run st' _ Hh'). split.
  - destruct (Z.leb_spec 0 (height st + 1)); [|lia].
    rewrite Hchain, lookup_app_r by lia.
    replace (Z.to_nat (height st + 1) - length (chain st))%nat with 0%nat by lia.
    reflexivity.
  - intros h Hle. rewrite (getBlockByHeight_run st' h Hh'), (getBlockByHeight_run st h Hh).
    cbn [fst]. destruct (0 <=? h) eqn:Hpos; [|reflexivity].
    apply Z.leb_le in Hpos. rewrite Hchain, lookup_app_l by lia. reflexivity.
Qed.

End Growth.

(** ** Stars after a submission, the committed block, and the constructor *)

Section Registry.

Context (sv : Services).

Lemma decodedRecords_snoc (bs : list Block.t) (x : Block.t) :
  omap (decodedRecord sv) (bs ++ [x])
  = omap (decodedRecord sv) bs ++ from_option (fun v => [v]) [] (decodedRecord sv x).
Proof.
  rewrite omap_app. cbn. destruct (decodedRecord sv x); reflexivity.
Qed.

Lemma getStars_scan (st : Blockchain) (address : string) :
  forallb canReadProps (decodedRecords sv st) = true ->
  getStarsByWalletAddress sv address st
  = (inr (List.filter (ownedBy address) (decodedRecords sv st)), st).
Proof.
  intros Hread. unfold getStarsByWalletAddress, bind, getChain. cbv iota beta.
  rewrite getStars_loop_run by exact Hread. reflexivity.
Qed.

Lemma ownedBy_starData (address other : string) (star : jsval) :
  ownedBy other (starData address star) = String.eqb address other.
Proof. reflexivity. Qed.

(** X10.  On a reachable ledger that holds at least the genesis block and
    whose decoded records are all readable, and with a codec that decodes
    the encoded claim to the claim itself, a resolved [submitStar] adds the
    claim [{owner, star}] at the end of what [getStarsByWalletAddress]
    returns for the submitting address and changes the result for no other
    address. *)
Theorem submitted_star_is_listed (st : Blockchain) (now commitTime : Z)
    (address message signature : string) (star : jsval) (l : loc) :
  reachable sv st ->
  fst (submitStar sv now commitTime address message signature star st) = inr l ->
  height st <> -1 ->
  decode sv (encode sv (starData address star)) = Some (starData address star) ->
  forallb canReadProps (decodedRecords sv st) = true ->
  let st' := snd (submitStar sv now commitTime address message signature star st) in
  getStarsByWalletAddress sv address st'
  = (inr (List.filter (ownedBy address) (decodedRecords sv st)
          ++ [starData address star]), st')
  /\ forall other, other <> address ->
       fst (getStarsByWalletAddress sv other st')
       = fst (getStarsByWalletAddress sv other st).
Proof.
  intros Hreach Hres Hinit Hcodec Hread. cbv zeta.
  destruct (reachable_wellFormed sv st Hreach) as [Hcache Hrefs].
  pose proof Hres as Hres'.
  rewrite (submitStar_resolved sv _ _ _ _ _ _ st l Hres) in Hres' |- *.
  destruct (appendNew_outcome sv commitTime (starData address star) st Hcache)
    as [Hok|[e He]]; [|rewrite He in Hres'; discriminate].
  rewrite Hok. cbn [snd]. unfold Block_new.
  set (st1 := snd (allocBlock _ st)).
  set (x := stamped sv st1 commitTime (length (heap st))).
  set (st' := committed sv st1 commitTime (length (heap st))).
  assert (Hblocks : blocks st' = blocks st ++ [x])
    by (apply blocks_committed_new, Hrefs).
  assert (Hxh : Block.height x = Some (height st + 1))
    by (exact (stamped_height sv st1 commitTime (length (heap st)))).
  assert (Hxb : Block.body x = encode sv (starData address star)).
  { unfold x. rewrite stamped_body. unfold blockAt, st1. simpl.
    rewrite deref_app_new. reflexivity. }
  assert (Hrecords : decodedRecords sv st'
                     = decodedRecords sv st
                       ++ from_option (fun v => [v]) [] (decodedRecord sv x)).
  { unfold decodedRecords. rewrite Hblocks. apply decodedRecords_snoc. }
  assert (Hx : decodedRecord sv x = Some (starData address star)).
  { unfold decodedRecord, heightIs. rewrite Hxh, Hxb.
    destruct (Z.eqb_spec (height st + 1) 0); [lia | exact Hcodec]. }
  rewrite Hx in Hrecords. cbn [from_option] in Hrecords.
  assert (Hread' : forallb canReadProps (decodedRecords sv st') = true).
  { rewrite Hrecords, forallb_app, Hread. reflexivity. }
  split.
  - rewrite (getStars_scan st' address Hread').
    rewrite Hrecords, List.filter_app. cbn [List.filter].
    rewrite ownedBy_starData, String.eqb_refl. reflexivity.
  - intros other Hother.
    rewrite (getStars_scan st' other Hread').
    rewrite (getStars_scan st other Hread).
    cbn [fst]. rewrite Hrecords, List.filter_app. cbn [List.filter].
    rewrite ownedBy_starData.
    rewrite (proj2 (String.eqb_neq address other)) by congruence.
    rewrite app_nil_r. reflexivity.
Qed.

(** X11.  A block that [_addBlock] has committed on a reachable ledger
    passes its own [validate]: its stored hash is the hash of its final
    fields, its time is the text of the clock reading, and its previous hash
    is the hash that the last block of the chain stored when the call was
    made.  On a ledger without blocks the previous hash is not written: it
    stays what the caller's block carried. *)
Theorem committed_block_is_stamped (st : Blockchain) (now : Z) (block l : loc) :
  reachable sv st -> (block < length (heap st))%nat ->
  fst (_addBlock sv now block st) = inr l ->
  let st' := snd (_addBlock sv now block st) in
  l = block
  /\ selfConsistent sv (blockAt st' block) = true
  /\ Block.time (blockAt st' block) = Some (_generateNewTime now)
  /\ Block.body (blockAt st' block) = Block.body (blockAt st block)
  /\ (forall lastBlock, last (chain st) = Some lastBlock ->
        Block.previousBlockHash (blockAt st' block) = Block.hash (blockAt st lastBlock))
  /\ (chain st = [] ->
        Block.previousBlockHash (blockAt st' block)
        = Block.previousBlockHash (blockAt st block)).
Proof.
  intros Hreach Hlive Hres. cbv zeta.
  destruct (reachable_wellFormed sv st Hreach) as [Hcache Hrefs].
  destruct (addBlock_outcome sv now block st Hcache Hlive) as [Hok|[e He]];
    [|rewrite He in Hres; discriminate].
  rewrite Hok in Hres |- *. cbn [fst snd] in *.
  assert (Hnew : blockAt (committed sv st now block) block = stamped sv st now block).
  { unfold blockAt, committed. cbn [heap]. apply deref_insert_eq, Hlive. }
  rewrite Hnew. unfold cacheAgrees in Hcache.
  split; [congruence|]. split; [apply stamped_selfConsistent|].
  split; [reflexivity|]. split; [apply stamped_body|]. split.
  - intros lastBlock Hlast. apply stamped_link.
    + destruct (chain st); [discriminate | simpl in Hcache; lia].
    + rewrite last_lookup in Hlast.
      replace (length (chain st) - 1)%nat with (Init.Nat.pred (length (chain st))) by lia.
      exact Hlast.
  - intros Hnil. apply stamped_first. rewrite Hcache, Hnil. reflexivity.
Qed.

(** X12.  A constructed ledger, once the [initializeChain] started by the
    constructor has settled at clock reading [now], holds exactly the genesis
    block: height 0, no previous hash, the encoded [{data: 'Genesis Block'}]
    as body, the text of [now] as time and the hash of these as hash.  It
    validates, [getBlockByHeight(0)] resolves with the genesis block, and
    [getStarsByWalletAddress] resolves with the empty list for every
    address. *)
Theorem constructed_ledger (now : Z) :
  let genesis :=
    Block.mk (Some (digest sv (Some 0) (Some (_generateNewTime now)) None
                      (encode sv genesisData)))
             (Some 0) (encode sv genesisData) (Some (_generateNewTime now)) None in
  Blockchain_new sv now = mkBlockchain [genesis] [0%nat] 0
  /\ grown sv (Blockchain_new sv now)
  /\ validateChain sv (Blockchain_new sv now) = (inr [], Blockchain_new sv now)
  /\ getBlockByHeight 0 (Blockchain_new sv now) = (inr (Some 0%nat), Blockchain_new sv now)
  /\ forall address,
       getStarsByWalletAddress sv address (Blockchain_new sv now)
       = (inr [], Blockchain_new sv now).
Proof.
  cbv zeta.
  assert (Hgrown : grown sv (Blockchain_new sv now))
    by (apply grown_initializeChain, grown_new).
  assert (Hst : Blockchain_new sv now
                = mkBlockchain
                    [Block.mk (Some (digest sv (Some 0) (Some (_generateNewTime now)) None
                                       (encode sv genesisData)))
                       (Some 0) (encode sv genesisData) (Some (_generateNewTime now)) None]
                    [0%nat] 0)
    by reflexivity.
  split; [exact Hst|]. split; [exact Hgrown|]. split.
  - rewrite validateChain_run.
    rewrite (sound_reports sv _ (grown_sound sv _ Hgrown)). reflexivity.
  - rewrite Hst. split; reflexivity.
Qed.

End Registry.

(** ** The further properties on the sample ledgers *)

Lemma ready_grown : grown Demo.services Demo.ready.
Proof. unfold Demo.ready, Demo.run. apply grown_initializeChain, grown_new. Qed.

Lemma withStars_grown : grown Demo.services Demo.withStars.
Proof.
  unfold Demo.withStars, Demo.run, Demo.claim.
  apply (submitStar_grown Demo.services _ _ _ _ _ _ _ 3%nat);
    [|vm_compute; reflexivity].
  apply (submitStar_grown Demo.services _ _ _ _ _ _ _ 2%nat);
    [|vm_compute; reflexivity].
  apply (submitStar_grown Demo.services _ _ _ _ _ _ _ 1%nat);
    [exact ready_grown | vm_compute; reflexivity].
Qed.

Lemma withStars_heightsMatch : heightsMatch Demo.withStars.
Proof. exact (proj1 (proj1 (proj2 (proj2 (grown_sound _ _ withStars_grown))))). Qed.

(** X1 on the sample ledger. *)
Lemma getBlockByHeight_is_indexing_witness :
  getBlockByHeight 2 Demo.withStars = (inr (Some 2%nat), Demo.withStars)
  /\ fst (getBlockByHeight 4 Demo.withStars) = inr None.
Proof.
  split.
  - exact (proj1 (getBlockByHeight_is_indexing Demo.withStars 2 withStars_heightsMatch)).
  - apply (proj2 (getBlockByHeight_is_indexing Demo.withStars 4 withStars_heightsMatch)).
    right. vm_compute. discriminate.
Defined.

(** X2 on the sample ledger: the genesis hash is found at position 0. *)
Lemma getBlockByHash_finds_first_witness :
  exists i, chain Demo.withStars !! i = Some 0%nat
    /\ Block.hash (blockAt Demo.withStars 0%nat) = Some "#0|1000|null|genesis"%string
    /\ forall j l', (j < i)%nat -> chain Demo.withStars !! j = Some l' ->
         Block.hash (blockAt Demo.withStars l') <> Some "#0|1000|null|genesis"%string.
Proof.
  apply (proj1 (proj2 (getBlockByHash_finds_first Demo.withStars "#0|1000|null|genesis"))).
  vm_compute. reflexivity.
Defined.

(** X3 on the sample ledger. *)
Lemma grown_ledger_validates_witness :
  validateChain Demo.services Demo.withStars = (inr [], Demo.withStars).
Proof. exact (proj1 (grown_ledger_validates Demo.services Demo.withStars withStars_grown)). Defined.

(** X4 on the sample ledger: height 1 is overwritten, height 9 is absent. *)
Lemma tamper_overwrites_one_hash_witness :
  fst (tamperWithBlockByHeight 1 Demo.withStars) = inr (Some 1%nat)
  /\ tamperWithBlockByHeight 9 Demo.withStars = (inr None, Demo.withStars).
Proof.
  assert (Hrefs : refsLive Demo.withStars)
    by exact (proj1 (proj2 (grown_sound _ _ withStars_grown))).
  destruct (tamper_overwrites_one_hash Demo.withStars 1 withStars_heightsMatch Hrefs)
    as [Hhit _].
  destruct (tamper_overwrites_one_hash Demo.withStars 9 withStars_heightsMatch Hrefs)
    as [_ Hmiss].
  split.
  - apply (Hhit 1%nat); [lia | vm_compute; reflexivity].
  - apply Hmiss. right. vm_compute. discriminate.
Defined.

(** X5 on the sample ledger: after tampering at height 1 the blocks at
    heights 1 and 2 are reported. *)
Lemma tampering_is_detected_witness :
  validateChain Demo.services tamperedOnce = (inr [1; 2]%nat, tamperedOnce).
Proof.
  refine (proj1 (tampering_is_detected Demo.services Demo.withStars 1 1%nat
                   withStars_grown _ _ _)).
  - lia.
  - vm_compute. reflexivity.
  - vm_compute. discriminate.
Defined.

(** X6 for a challenge issued to "alice" at clock reading 2000. *)
Lemma issued_challenge_round_trip_witness :
  mMessageTime (issuedMessage 2000 "alice") = Some 2000.
Proof.
  refine (proj1 (proj2 (issued_challenge_round_trip Demo.services newBlockchain
                          2000 2000 2000 "alice" "" JNull _ _))).
  - reflexivity.
  - vm_compute. split; discriminate.
Defined.

(** X7 on the tampered sample ledger. *)
Lemma rejection_changes_nothing_witness :
  snd (_addBlock Demo.services 7000 1%nat Demo.tampered) = Demo.tampered.
Proof.
  apply (proj1 (rejection_changes_nothing Demo.services Demo.tampered tampered_reachable)
           7000 1%nat ChainInvalidError).
  - vm_compute. lia.
  - vm_compute. reflexivity.
Defined.

(** X8 on the sample ledger. *)
Lemma chain_is_append_only_witness :
  chain (snd (tamperWithBlockByHeight 0 Demo.withStars)) = chain Demo.withStars.
Proof.
  exact (proj1 (proj2 (proj2 (proj2
           (chain_is_append_only Demo.services Demo.withStars withStars_reachable))) 0)).
Defined.

(** X9 on the sample ledger holding the genesis block only. *)
Lemma committed_block_is_found_witness :
  fst (getBlockByHeight 1 (snd (Demo.claim 2000 3000 "alice" (JStr "Vega") Demo.ready)))
  = inr (Some 1%nat).
Proof.
  refine (f_equal fst (proj1 (committed_block_is_found Demo.services Demo.ready 3000 3000
                     "alice" (Demo.challenge 2000 "alice")
                     (Demo.sign (Demo.challenge 2000 "alice") "alice") (JStr "Vega") 1%nat
                     ready_grown _))).
  vm_compute. reflexivity.
Defined.

(** X10 on the sample ledger holding the genesis block only. *)
Lemma submitted_star_is_listed_witness :
  fst (getStarsByWalletAddress Demo.services "alice"
         (snd (Demo.claim 2000 3000 "alice" (JStr "Vega") Demo.ready)))
  = inr [starData "alice" (JStr "Vega")].
Proof.
  assert (Hres : fst (Demo.claim 2000 3000 "alice" (JStr "Vega") Demo.ready) = inr 1%nat)
    by (vm_compute; reflexivity).
  refine (f_equal fst (proj1 (submitted_star_is_listed Demo.services Demo.ready 3000 3000
                     "alice" (Demo.challenge 2000 "alice")
                     (Demo.sign (Demo.challenge 2000 "alice") "alice") (JStr "Vega") 1%nat
                     ready_reachable Hres _ _ _))).
  - vm_compute. discriminate.
  - vm_compute. reflexivity.
  - vm_compute. reflexivity.
Defined.

(** X11 on the sample ledger: the genesis block object handed to
    [_addBlock] again is stamped anew. *)
Lemma committed_block_is_stamped_witness :
  selfConsistent Demo.services (blockAt Demo.aliased 0%nat) = true.
Proof.
  refine (proj1 (proj2 (committed_block_is_stamped Demo.services Demo.ready 2000
                          0%nat 0%nat ready_reachable _ _))).
  - vm_compute. lia.
  - vm_compute. reflexivity.
Defined.

(** ** The rejections that can occur *)

Section Rejections.

Context (sv : Services).

Lemma inRange_blockReport (st : Blockchain) (l : loc) (h : Z) :
  Block.height (blockAt st l) = Some h ->
  0 <= h < Z.of_nat (length (chain st)) ->
  exists r, blockReport sv st l = inr r.
Proof.
  intros Hh Hrange. unfold blockReport. rewrite Hh.
  destruct (0 <? h) eqn:Hpos; [|eexists; reflexivity].
  apply Z.ltb_lt in Hpos.
  destruct (chain st !! Z.to_nat (h - 1)) as [prev|] eqn:Hprev; [eexists; reflexivity|].
  apply lookup_ge_None in Hprev. lia.
Qed.

Lemma reports_resolve (st : Blockchain) (todo errorLog : list loc) :
  Forall (fun l => exists r, blockReport sv st l = inr r) todo ->
  exists r, reports sv st todo errorLog = inr r.
Proof.
  intros H. revert errorLog.
  induction H as [|l rest [r Hl] _ IH]; intros errorLog; cbn [reports].
  - eexists; reflexivity.
  - rewrite Hl. apply IH.
Qed.

Lemma heightsInRange_resolves (st : Blockchain) :
  heightsInRange st -> exists r, reports sv st (chain st) [] = inr r.
Proof.
  intros H. apply reports_resolve. eapply Forall_impl; [exact H|].
  intros l (h & Hh & Hrange). eapply inRange_blockReport; eassumption.
Qed.

Lemma alloc_heightsInRange (b : Block.t) (st : Blockchain) :
  refsLive st -> heightsInRange st -> heightsInRange (snd (allocBlock b st)).
Proof.
  unfold heightsInRange, refsLive. intros Hrefs H.
  change (chain (snd (allocBlock b st))) with (chain st).
  rewrite Forall_forall in H, Hrefs |- *. intros l Hl.
  rewrite (blockAt_alloc b st l (Hrefs l Hl)). apply H, Hl.
Qed.

Lemma committed_heightsInRange (now : Z) (block : loc) (st : Blockchain) :
  cacheAgrees st -> (block < length (heap st))%nat ->
  heightsInRange st -> heightsInRange (committed sv st now block).
Proof.
  unfold heightsInRange, cacheAgrees. intros Hcache Hlive H.
  cbn [committed chain]. rewrite length_app. cbn [length].
  assert (Hat : forall l,
             Block.height (blockAt (committed sv st now block) l)
             = (if decide (l = block) then Some (height st + 1)
                else Block.height (blockAt st l))).
  { intros l. unfold blockAt, committed. cbn [heap].
    destruct (decide (l = block)) as [->|Hne].
    - rewrite deref_insert_eq by exact Hlive. apply stamped_height.
    - rewrite deref_insert_ne by congruence. reflexivity. }
  assert (Hone : forall l,
             (l = block \/ exists h, Block.height (blockAt st l) = Some h
                                    /\ 0 <= h < Z.of_nat (length (chain st))) ->
             exists h, Block.height (blockAt (committed sv st now block) l) = Some h
                       /\ 0 <= h < Z.of_nat (length (chain st) + 1)).
  { intros l Hl. rewrite (Hat l).
    destruct (decide (l = block)) as [_|Hne].
    - exists (height st + 1). split; [reflexivity | lia].
    - destruct Hl as [Hl|(h & Hh & Hrange)]; [congruence|].
      exists h. split; [exact Hh | lia]. }
  apply Forall_app. split.
  - eapply Forall_impl; [exact H|]. intros l Hl. apply Hone. right. exact Hl.
  - constructor; [|constructor]. apply Hone. left. reflexivity.
Qed.

Lemma addBlock_heightsInRange (now : Z) (block : loc) (st : Blockchain) :
  cacheAgrees st -> (block < length (heap st))%nat ->
  heightsInRange st -> heightsInRange (snd (_addBlock sv now block st)).
Proof.
  intros Hcache Hlive H.
  destruct (addBlock_outcome sv now block st Hcache Hlive) as [Hok|[e He]].
  - rewrite Hok. apply committed_heightsInRange; assumption.
  - rewrite He. exact H.
Qed.

Lemma appendNew_heightsInRange (now : Z) (data : jsval) (st : Blockchain) :
  cacheAgrees st -> refsLive st ->
  heightsInRange st -> heightsInRange (snd (appendNew sv now data st)).
Proof.
  intros Hcache Hrefs H. unfold appendNew, bind, Block_new.
  set (b := Block.mk None None (encode sv data) None None).
  change (allocBlock b st) with (inr (A := jserror) (length (heap st)), snd (allocBlock b st)).
  cbv iota beta.
  apply addBlock_heightsInRange.
  - exact Hcache.
  - simpl. rewrite length_app. simpl. lia.
  - apply alloc_heightsInRange; assumption.
Qed.

Lemma tamper_heightsInRange (h : Z) (st : Blockchain) :
  heightsInRange st -> heightsInRange (snd (tamperWithBlockByHeight h st)).
Proof.
  unfold tamperWithBlockByHeight, getBlockByHeight, bind, getChain. cbv iota beta.
  rewrite chainFind_run.
  destruct (List.find _ (chain st)) as [block|]; [|intros H; exact H].
  unfold heightsInRange. cbn. intros H.
  eapply Forall_impl; [exact H|]. intros l (k & Hk & Hrange).
  exists k. split; [|exact Hrange].
  unfold blockAt in *. cbn [heap].
  destruct (decide (block = l)) as [->|Hne].
  - destruct (decide (l < length (heap st))%nat) as [Hl|Hl].
    + rewrite deref_insert_eq by exact Hl. exact Hk.
    + rewrite list_insert_ge by lia. exact Hk.
  - rewrite deref_insert_ne by exact Hne. exact Hk.
Qed.

Lemma reachable_heightsInRange (st : Blockchain) :
  reachable sv st -> heightsInRange st.
Proof.
  induction 1 as [ | now st Hr IH | data st Hr IH | now block st Hr IH Hlive
                   | now commitTime address message signature star st Hr IH
                   | h st Hr IH ];
    try (destruct (reachable_wellFormed sv st Hr) as [Hcache Hrefs]).
  - constructor.
  - rewrite initializeChain_snd. destruct (height st =? -1); [|exact IH].
    apply appendNew_heightsInRange; assumption.
  - apply alloc_heightsInRange; assumption.
  - apply addBlock_heightsInRange; assumption.
  - destruct (fst (submitStar sv now commitTime address message signature star st))
      as [e|l] eqn:Hres.
    + destruct (submitStar_rejected sv _ _ _ _ _ _ st e Hcache Hres) as [-> | ->].
      * exact IH.
      * apply alloc_heightsInRange; assumption.
    + rewrite (submitStar_resolved sv _ _ _ _ _ _ st l Hres).
      apply appendNew_heightsInRange; assumption.
  - apply tamper_heightsInRange, IH.
Qed.

(** X13.  On a reachable ledger the [TypeError] paths are never taken:
    [validateChain] always resolves, [_addBlock] rejects with no error other
    than "Blockchain is not valid", and a rejection of [submitStar] is the
    expiry reason, the invalid-signature reason, "Blockchain is not valid",
    or the exception that [bitcoinMessage.verify] threw. *)
Theorem rejections_on_reachable_ledgers (st : Blockchain) :
  reachable sv st ->
  (exists errorLog, validateChain sv st = (inr errorLog, st))
  /\ (forall (now : Z) (block : loc) (e : jserror),
        (block < length (heap st))%nat ->
        fst (_addBlock sv now block st) = inl e -> e = ChainInvalidError)
  /\ (forall (now commitTime : Z) (address message signature : string)
        (star : jsval) (e : jserror),
        fst (submitStar sv now commitTime address message signature star st) = inl e ->
        e = ExpiredChallengeError \/ e = InvalidSignatureError
        \/ e = ChainInvalidError
        \/ verify sv message address signature = inl e).
Proof.
  intros Hreach.
  destruct (reachable_wellFormed sv st Hreach) as [Hcache Hrefs].
  assert (Hadd : forall st0 now block e,
             reachable sv st0 -> (block < length (heap st0))%nat ->
             fst (_addBlock sv now block st0) = inl e -> e = ChainInvalidError).
  { intros st0 now block e Hr0 Hlive Hrej.
    destruct (reachable_wellFormed sv st0 Hr0) as [Hc0 _].
    destruct (heightsInRange_resolves st0 (reachable_heightsInRange st0 Hr0))
      as [errorLog Hrep].
    destruct errorLog as [|l rest].
    - rewrite (addBlock_commits sv now block st0 Hrep Hlive) in Hrej; [discriminate|].
      unfold cacheAgrees in Hc0. intros Hpos Hnil.
      rewrite Hnil in Hc0. simpl in Hc0. lia.
    - rewrite (addBlock_guard_closed sv now block st0 (l :: rest) Hrep) in Hrej
        by discriminate.
      cbn in Hrej. congruence. }
  split; [|split].
  - destruct (heightsInRange_resolves st (reachable_heightsInRange st Hreach))
      as [errorLog Hrep].
    exists errorLog. rewrite validateChain_run, Hrep. reflexivity.
  - intros now block e. apply Hadd, Hreach.
  - intros now commitTime address message signature star e.
    unfold submitStar. destruct (numGe _ _).
    + cbn. intros [= <-]. left. reflexivity.
    + destruct (verify sv message address signature) as [e'|[|]] eqn:Hv.
      * rewrite (verifyAndAppend_throws sv _ _ _ _ _ _ _ Hv). cbn.
        intros [= <-]. right. right. right. reflexivity.
      * rewrite (verifyAndAppend_valid sv _ _ _ _ _ _ Hv).
        unfold appendNew, bind, Block_new.
        set (b := Block.mk None None (encode sv (starData address star)) None None).
        change (allocBlock b st)
          with (inr (A := jserror) (length (heap st)), snd (allocBlock b st)).
        cbv iota beta. intros Hrej. right. right. left.
        apply (Hadd (snd (allocBlock b st)) commitTime (length (heap st)) e).
        -- exact (reach_Block_new sv (starData address star) st Hreach).
        -- simpl. rewrite length_app. simpl. lia.
        -- exact Hrej.
      * rewrite (verifyAndAppend_invalid sv _ _ _ _ _ _ Hv). cbn.
        intros [= <-]. right. left. reflexivity.
Qed.

End Rejections.

(** X13 on the tampered sample ledger. *)
Lemma rejections_on_reachable_ledgers_witness :
  exists errorLog,
    validateChain Demo.services Demo.tampered = (inr errorLog, Demo.tampered).
Proof.
  exact (proj1 (rejections_on_reachable_ledgers Demo.services Demo.tampered
                  tampered_reachable)).
Defined.
